(** * my-cli: a shallow embedding of the git automation CLI

    The development follows the TypeScript sources of the CLI package:

    - [lib/config.ts]  the configuration store kept in [~/.my-cli/config.json];
    - [lib/git.ts]     the wrappers around the [git] and [gh] binaries;
    - [lib/ai.ts]      the four AI provider clients;
    - [lib/prompt.ts]  the interactive prompts;
    - [index.ts]       the command handlers ([push], [delete]).

    JavaScript strings are sequences of UTF-16 code units and are modelled as
    lists of numbers.  Everything the program obtains from outside (the exit
    status and standard output of a subprocess, the answer of an HTTP POST,
    what the user types) is supplied by an [Externals] record, and every such
    interaction is appended to a trace.  Console output is not modelled. *)

From Stdlib Require Import List String Ascii NArith ZArith Bool Lia.
From Stdlib Require Import Numbers.DecimalString Numbers.DecimalN.
Import ListNotations.

(* ================================================================== *)
(** ** JavaScript strings *)
(* ================================================================== *)

Module Js.

(** A string is its list of UTF-16 code units. *)
Definition jsstring := list N.

(** A literal of the source, all of whose characters are ASCII. *)
Definition lit (s : string) : jsstring :=
  map N_of_ascii (list_ascii_of_string s).

(** [a === b] *)
Fixpoint str_eqb (a b : jsstring) : bool :=
  match a, b with
  | [], [] => true
  | x :: a', y :: b' => (x =? y)%N && str_eqb a' b'
  | _, _ => false
  end.

(** ECMAScript LineTerminator: LF, CR, LS, PS. *)
Definition isLineTerminator (c : N) : bool :=
  ((c =? 10) || (c =? 13) || (c =? 8232) || (c =? 8233))%N.

(** ECMAScript WhiteSpace: TAB, VT, FF, SP, NBSP, ZWNBSP and the
    code points of category Zs. *)
Definition isWhiteSpace (c : N) : bool :=
  ((c =? 9) || (c =? 11) || (c =? 12) || (c =? 32) || (c =? 160)
   || (c =? 5760) || ((8192 <=? c) && (c <=? 8202))
   || (c =? 8239) || (c =? 8287) || (c =? 12288) || (c =? 65279))%N.

(** What [String.prototype.trim] strips. *)
Definition isTrimmed (c : N) : bool := isWhiteSpace c || isLineTerminator c.

Fixpoint trimStart (s : jsstring) : jsstring :=
  match s with
  | c :: s' => if isTrimmed c then trimStart s' else s
  | [] => []
  end.

Definition trimEnd (s : jsstring) : jsstring := rev (trimStart (rev s)).

(** [s.trim()] *)
Definition trim (s : jsstring) : jsstring := trimEnd (trimStart s).

(** [Some rest] when [s = pat ++ rest]. *)
Fixpoint strip_prefix (pat s : jsstring) : option jsstring :=
  match pat, s with
  | [], _ => Some s
  | p :: pat', c :: s' => if (p =? c)%N then strip_prefix pat' s' else None
  | _ :: _, [] => None
  end.

(** [s.includes(pat)] *)
Fixpoint includes (s pat : jsstring) : bool :=
  match strip_prefix pat s with
  | Some _ => true
  | None => match s with
            | [] => false
            | _ :: s' => includes s' pat
            end
  end.

(** [s.replace(pat, rep)] for a string pattern [pat] and a replacement
    [rep] without [$] patterns: only the first occurrence is replaced. *)
Fixpoint replace (s pat rep : jsstring) : jsstring :=
  match strip_prefix pat s with
  | Some rest => rep ++ rest
  | None => match s with
            | [] => []
            | c :: s' => c :: replace s' pat rep
            end
  end.

(** [String(n)] for a non-negative integer. *)
Definition of_N (n : N) : jsstring := lit (NilZero.string_of_uint (N.to_uint n)).

End Js.

Import Js.

Arguments lit s%_string_scope.


(* ================================================================== *)
(** ** Values and errors *)
(* ================================================================== *)

(** A JavaScript value as [JSON.parse] builds it, plus [undefined].  An
    object is the list of its own properties; numbers are only tested for
    truthiness and are kept as integers. *)
#[warnings="-register-all"]
Inductive JsValue : Type :=
| JUndefined
| JNull
| JBool (b : bool)
| JNumber (n : Z)
| JString (s : jsstring)
| JArray (items : list JsValue)
| JObject (fields : list (jsstring * JsValue)).

(** One step of a member access: [.k] or [[i]]. *)
Inductive Step : Type :=
| Key (k : jsstring)
| Idx (i : nat).

Fixpoint assoc (k : jsstring) (fields : list (jsstring * JsValue)) : option JsValue :=
  match fields with
  | [] => None
  | (k', v) :: rest => if str_eqb k k' then Some v else assoc k rest
  end.

(** The property of [v] selected by a step, when [v] has it.  The named
    properties read by the program ([candidates], [content], [parts],
    [text], [choices], [message]) exist on objects only; an index selects
    an array element, a code unit of a string, or the property of an
    object named by the decimal index. *)
Definition member (v : JsValue) (st : Step) : option JsValue :=
  match st, v with
  | Key k, JObject fields => assoc k fields
  | Idx i, JArray items => nth_error items i
  | Idx i, JString s => option_map (fun c => JString [c]) (nth_error s i)
  | Idx i, JObject fields => assoc (of_N (N.of_nat i)) fields
  | _, _ => None
  end.

(** Optional chaining [v?.k] and [v?.[i]]: [undefined] when [v] is
    [null] or [undefined] or lacks the property. *)
Definition opt_member (v : JsValue) (st : Step) : JsValue :=
  match member v st with
  | Some v' => v'
  | None => JUndefined
  end.

(** [v?.a?.[0]?.b ...] *)
Definition opt_chain (v : JsValue) (path : list Step) : JsValue :=
  fold_left opt_member path v.

(** [!!v] *)
Definition truthy (v : JsValue) : bool :=
  match v with
  | JUndefined | JNull => false
  | JBool b => b
  | JNumber n => negb (n =? 0)%Z
  | JString s => match s with [] => false | _ :: _ => true end
  | JArray _ | JObject _ => true
  end.

(** What the program throws and catches.  [AxiosError] carries
    [error.response?.status] and [error.message]; every other exception
    ([new Error(..)], a [TypeError], a failed subprocess, an aborted
    prompt) is an [Error] with its message. *)
Inductive JsError : Type :=
| AxiosError (status : option N) (message : jsstring)
| Error (message : jsstring).

Definition error_message (e : JsError) : jsstring :=
  match e with
  | AxiosError _ m => m
  | Error m => m
  end.

(* ================================================================== *)
(** ** The outside world *)
(* ================================================================== *)

Inductive AiProvider : Type := gemini | openai | anthropic | github.

(** [interface Config] of lib/config.ts: every field is optional. *)
Record Config : Type := mkConfig {
  aiProvider : option AiProvider;
  apiKey : option jsstring;
  setupComplete : option bool
}.

(** [{}] *)
Definition emptyConfig : Config := mkConfig None None None.

(** The content of the configuration file: the object written by
    [JSON.stringify] and read back by [JSON.parse], or text that
    [JSON.parse] rejects. *)
Inductive FileContent : Type :=
| Json (c : Config)
| NotJson.

(** [CONFIG_DIR] and [CONFIG_FILE] on disk: the directory is missing,
    or it is there without the file, or the file is there. *)
Inductive ConfigFs : Type :=
| NoDir
| NoFile
| File (content : FileContent).

(** [execa(file, args)] or [execa(file, args, { stdio: 'inherit' })]. *)
Record Cmd : Type := mkCmd {
  file : jsstring;
  args : list jsstring;
  inherit : bool
}.

Inductive ExecaResult : Type :=
| ExecaOk (stdout : jsstring)
| ExecaFail (message : jsstring).

(** [axios.post(url, data, { headers, timeout })]. *)
Record Request : Type := mkRequest {
  url : jsstring;
  data : JsValue;
  headers : list (jsstring * jsstring);
  timeout : N
}.

(** The promise of [axios.post] resolves with [response.data] or rejects. *)
Inductive PostResult : Type :=
| Resolved (response_data : JsValue)
| Rejected (e : JsError).

(** A prompt resolves with the user's answer or rejects when the user
    leaves it. *)
Inductive Answer (A : Type) : Type :=
| Answered (a : A)
| Aborted (message : jsstring).

Arguments Answered {A} a.
Arguments Aborted {A} message.

(** Everything outside the program.  [Ext] is the hidden state of the
    environment; each interaction returns its result and the next state.
    [installGhCli] is imported from lib/git.js by index.ts but is not
    defined in the git module at hand: its outcome is taken from the
    environment. *)
Record Externals : Type := mkExternals {
  Ext : Type;
  run_execa : Cmd -> Ext -> ExecaResult * Ext;
  run_post : Request -> Ext -> PostResult * Ext;
  ask_provider : Ext -> Answer AiProvider * Ext;
  ask_yes_no : jsstring -> Ext -> Answer bool * Ext;
  ask_password : jsstring -> Ext -> Answer jsstring * Ext;
  run_installGhCli : Ext -> option JsError * Ext
}.

(** What the program did to the outside, in order. *)
Inductive Event : Type :=
| EvExeca (c : Cmd) (r : ExecaResult)
| EvPost (q : Request) (r : PostResult)
| EvSelectProvider (a : Answer AiProvider)
| EvConfirm (message : jsstring) (a : Answer bool)
| EvPassword (message : jsstring) (a : Answer jsstring)
| EvInstallGhCli (r : option JsError)
| EvMkdir
| EvWriteConfig (c : Config)
| EvUnlinkConfig.

(* ================================================================== *)
(** ** The command monad *)
(* ================================================================== *)

(** An [async] block returns a value, throws, or ends the process with
    [process.exit(code)]. *)
Inductive Outcome (A : Type) : Type :=
| Return (a : A)
| Throw (e : JsError)
| Exit (code : Z).

Arguments Return {A} a.
Arguments Throw {A} e.
Arguments Exit {A} code.

Section Program.

Variable E : Externals.

Record World : Type := mkWorld {
  fs : ConfigFs;
  trace : list Event;
  ext : Ext E
}.

Definition M (A : Type) : Type := World -> Outcome A * World.

Definition ret {A} (a : A) : M A := fun w => (Return a, w).

Definition bind {A B} (m : M A) (k : A -> M B) : M B :=
  fun w =>
    match m w with
    | (Return a, w') => k a w'
    | (Throw e, w') => (Throw e, w')
    | (Exit c, w') => (Exit c, w')
    end.

Definition throw {A} (e : JsError) : M A := fun w => (Throw e, w).

(** [process.exit(code)] *)
Definition exit {A} (code : Z) : M A := fun w => (Exit code, w).

(** [try { m } catch (e) { h e }]: leaving the process is not caught. *)
Definition try_catch {A} (m : M A) (h : JsError -> M A) : M A :=
  fun w =>
    match m w with
    | (Throw e, w') => h e w'
    | r => r
    end.

Definition log (ev : Event) (w : World) : World :=
  mkWorld (fs w) (trace w ++ [ev]) (ext w).

Definition set_fs (f : ConfigFs) (w : World) : World :=
  mkWorld f (trace w) (ext w).

End Program.

Arguments fs {E} w.
Arguments trace {E} w.
Arguments ext {E} w.
Arguments log {E} ev w.
Arguments set_fs {E} f w.
Arguments ret {E A} a.
Arguments bind {E A B} m k.
Arguments try_catch {E A} m h.
Arguments throw {E A} e.
Arguments exit {E A} code.

Notation "x <- m ;; k" := (bind m (fun x => k))
  (at level 61, m at next level, right associativity).
Notation "m ;; k" := (bind m (fun _ => k))
  (at level 61, right associativity).

(** The first world of a run: nothing has happened yet. *)
Definition start (E : Externals) (f : ConfigFs) (x : Ext E) : World E :=
  mkWorld E f [] x.

(* ------------------------------------------------------------------ *)
(** *** Primitive interactions *)

Section Primitives.

Variable E : Externals.

(** [await execa(file, args, opts)]: resolves with [stdout] or throws. *)
Definition execa (c : Cmd) : M E jsstring :=
  fun w =>
    let (r, x) := run_execa E c (ext w) in
    let w' := mkWorld E (fs w) (trace w ++ [EvExeca c r]) x in
    match r with
    | ExecaOk out => (Return out, w')
    | ExecaFail m => (Throw (Error m), w')
    end.

(** [await axios.post(url, data, config)]: resolves with the response,
    of which only [.data] is read. *)
Definition axios_post (q : Request) : M E JsValue :=
  fun w =>
    let (r, x) := run_post E q (ext w) in
    let w' := mkWorld E (fs w) (trace w ++ [EvPost q r]) x in
    match r with
    | Resolved d => (Return d, w')
    | Rejected e => (Throw e, w')
    end.

Definition answer {A} (a : Answer A) (w : World E) : Outcome A * World E :=
  match a with
  | Answered v => (Return v, w)
  | Aborted m => (Throw (Error m), w)
  end.

(** [await select({ message: 'Choose your AI provider:', choices })] *)
Definition select_provider : M E AiProvider :=
  fun w =>
    let (a, x) := ask_provider E (ext w) in
    answer a (mkWorld E (fs w) (trace w ++ [EvSelectProvider a]) x).

(** [await select({ message, choices: [Yes -> true, No -> false] })] *)
Definition select_yes_no (message : jsstring) : M E bool :=
  fun w =>
    let (a, x) := ask_yes_no E message (ext w) in
    answer a (mkWorld E (fs w) (trace w ++ [EvConfirm message a]) x).

(** [await password({ message, mask, validate })] *)
Definition password (message : jsstring) : M E jsstring :=
  fun w =>
    let (a, x) := ask_password E message (ext w) in
    answer a (mkWorld E (fs w) (trace w ++ [EvPassword message a]) x).

(** [await installGhCli()] *)
Definition installGhCli : M E unit :=
  fun w =>
    let (r, x) := run_installGhCli E (ext w) in
    let w' := mkWorld E (fs w) (trace w ++ [EvInstallGhCli r]) x in
    match r with
    | None => (Return tt, w')
    | Some e => (Throw e, w')
    end.

(** [fs.existsSync(CONFIG_DIR)] *)
Definition existsSync_dir : M E bool :=
  fun w => (Return (match fs w with NoDir => false | _ => true end), w).

(** [fs.existsSync(CONFIG_FILE)] *)
Definition existsSync_file : M E bool :=
  fun w => (Return (match fs w with File _ => true | _ => false end), w).

(** [fs.mkdirSync(CONFIG_DIR, { recursive: true })] *)
Definition mkdirSync : M E unit :=
  fun w =>
    (Return tt,
     log EvMkdir (set_fs (match fs w with NoDir => NoFile | f => f end) w)).

(** [fs.readFileSync(CONFIG_FILE, 'utf-8')] *)
Definition readFileSync : M E FileContent :=
  fun w =>
    match fs w with
    | File d => (Return d, w)
    | _ => (Throw (Error (lit "ENOENT: no such file or directory")), w)
    end.

(** [JSON.parse(data)] at type [Config] *)
Definition JSON_parse (d : FileContent) : M E Config :=
  match d with
  | Json c => ret c
  | NotJson => throw (Error (lit "Unexpected token in JSON"))
  end.

(** [fs.writeFileSync(CONFIG_FILE, JSON.stringify(config, null, 2))]:
    fails when the directory is missing. *)
Definition writeFileSync (c : Config) : M E unit :=
  fun w =>
    match fs w with
    | NoDir => (Throw (Error (lit "ENOENT: no such file or directory")), w)
    | _ => (Return tt, log (EvWriteConfig c) (set_fs (File (Json c)) w))
    end.

(** [fs.unlinkSync(CONFIG_FILE)] *)
Definition unlinkSync : M E unit :=
  fun w =>
    match fs w with
    | File _ => (Return tt, log EvUnlinkConfig (set_fs NoFile w))
    | _ => (Throw (Error (lit "ENOENT: no such file or directory")), w)
    end.

End Primitives.

(* ================================================================== *)
(** ** lib/config.ts *)
(* ================================================================== *)

Section ConfigStore.

Variable E : Externals.

Definition ensureConfigDir : M E unit :=
  ex <- existsSync_dir E ;;
  if negb ex then mkdirSync E else ret tt.

Definition getConfig : M E Config :=
  try_catch
    (ex <- existsSync_file E ;;
     if ex
     then d <- readFileSync E ;; JSON_parse E d
     else ret emptyConfig)
    (fun _ => ret emptyConfig).

Definition saveConfig (config : Config) : M E unit :=
  ensureConfigDir ;;
  writeFileSync E config.

Definition getApiKey : M E (option jsstring) :=
  c <- getConfig ;; ret (apiKey c).

Definition getAiProvider : M E (option AiProvider) :=
  c <- getConfig ;; ret (aiProvider c).

Definition setApiKey (provider : AiProvider) (key : jsstring) : M E unit :=
  config <- getConfig ;;
  let config := mkConfig (Some provider) (apiKey config) (setupComplete config) in
  let config := mkConfig (aiProvider config) (Some key) (setupComplete config) in
  let config := mkConfig (aiProvider config) (apiKey config) (Some true) in
  saveConfig config.

(** [!!s] for an optional string *)
Definition truthy_str (s : option jsstring) : bool :=
  match s with
  | Some (_ :: _) => true
  | _ => false
  end.

Definition is_some {A} (o : option A) : bool :=
  match o with Some _ => true | None => false end.

Definition isSetupComplete : M E bool :=
  config <- getConfig ;;
  ret (match setupComplete config with Some true => true | _ => false end
       && truthy_str (apiKey config) && is_some (aiProvider config)).

Definition clearConfig : M E bool :=
  try_catch
    (ex <- existsSync_file E ;;
     if ex
     then unlinkSync E ;; ret true
     else ret false)
    (fun _ => ret false).

End ConfigStore.

(* ================================================================== *)
(** ** lib/git.ts *)
(* ================================================================== *)

Definition gh (a : list jsstring) : Cmd := mkCmd (lit "gh") a false.
Definition git (a : list jsstring) : Cmd := mkCmd (lit "git") a false.

Definition gh_version : Cmd := gh [lit "--version"].
Definition gh_auth_status : Cmd := gh [lit "auth"; lit "status"].
Definition gh_auth_login : Cmd := mkCmd (lit "gh") [lit "auth"; lit "login"] true.
Definition git_rev_parse : Cmd := git [lit "rev-parse"; lit "--is-inside-work-tree"].
Definition git_init : Cmd := git [lit "init"].
Definition git_remote : Cmd := git [lit "remote"].
Definition gh_repo_create (folderName : jsstring) : Cmd :=
  gh [lit "repo"; lit "create"; folderName; lit "--public"; lit "--source=."; lit "--remote=origin"].
Definition git_add : Cmd := git [lit "add"; lit "."].
Definition git_diff_cached : Cmd := git [lit "diff"; lit "--cached"].
Definition git_commit (message : jsstring) : Cmd := git [lit "commit"; lit "-m"; message].
Definition git_branch : Cmd := git [lit "branch"; lit "--show-current"].
Definition git_push (branch : jsstring) : Cmd := git [lit "push"; lit "-u"; lit "origin"; branch].
Definition git_status : Cmd := git [lit "status"; lit "--porcelain"].

(** [stdout.includes('origin')] *)
Definition remoteListed (stdout : jsstring) : bool := includes stdout (lit "origin").

(** [stdout.trim() || 'main'] *)
Definition branchOrMain (stdout : jsstring) : jsstring :=
  match trim stdout with
  | [] => lit "main"
  | b => b
  end.

(** [stdout.trim().length > 0] *)
Definition nonBlank (stdout : jsstring) : bool :=
  (0 <? List.length (trim stdout))%nat.

Section Git.

Variable E : Externals.

(** [path.basename(process.cwd())] *)
Variable folderName : jsstring.

Definition isGhInstalled : M E bool :=
  try_catch (execa E gh_version ;; ret true) (fun _ => ret false).

Definition isGhAuthenticated : M E bool :=
  try_catch (execa E gh_auth_status ;; ret true) (fun _ => ret false).

Definition loginGh : M E unit :=
  execa E gh_auth_login ;; ret tt.

Definition isGitRepo : M E bool :=
  try_catch (execa E git_rev_parse ;; ret true) (fun _ => ret false).

Definition initGitRepo : M E unit :=
  execa E git_init ;; ret tt.

Definition hasRemote : M E bool :=
  try_catch
    (stdout <- execa E git_remote ;; ret (remoteListed stdout))
    (fun _ => ret false).

Definition createGitHubRepo : M E unit :=
  execa E (gh_repo_create folderName) ;; ret tt.

Definition stageAll : M E unit :=
  execa E git_add ;; ret tt.

Definition getStagedDiff : M E jsstring :=
  stdout <- execa E git_diff_cached ;; ret stdout.

Definition commit (message : jsstring) : M E unit :=
  execa E (git_commit message) ;; ret tt.

Definition getCurrentBranch : M E jsstring :=
  stdout <- execa E git_branch ;; ret (branchOrMain stdout).

Definition push : M E unit :=
  branch <- getCurrentBranch ;;
  execa E (git_push branch) ;; ret tt.

Definition hasChanges : M E bool :=
  stdout <- execa E git_status ;; ret (nonBlank stdout).

End Git.

(* ================================================================== *)
(** ** lib/ai.ts *)
(* ================================================================== *)

Definition COMMIT_PROMPT : jsstring :=
  lit "You are an expert developer. Based on the following git diff, write a concise, professional commit message following conventional commit standards. Output only the message text, nothing else:".

(** [`${COMMIT_PROMPT}\n\n${diff}`] *)
Definition promptFor (diff : jsstring) : jsstring :=
  COMMIT_PROMPT ++ [10%N; 10%N] ++ diff.

(** [[{ role: 'user', content }]] *)
Definition userMessages (content : jsstring) : JsValue :=
  JArray [JObject [(lit "role", JString (lit "user"));
                   (lit "content", JString content)]].

Definition geminiRequest (diff key : jsstring) : Request :=
  mkRequest
    (lit "https://generativelanguage.googleapis.com/v1beta/models/gemini-2.0-flash:generateContent?key=" ++ key)
    (JObject [(lit "contents",
               JArray [JObject [(lit "parts",
                                 JArray [JObject [(lit "text", JString (promptFor diff))]])]])])
    []
    60000.

Definition openaiRequest (diff key : jsstring) : Request :=
  mkRequest
    (lit "https://api.openai.com/v1/chat/completions")
    (JObject [(lit "model", JString (lit "gpt-4o-mini"));
              (lit "messages", userMessages (promptFor diff));
              (lit "max_tokens", JNumber 200)])
    [(lit "Authorization", lit "Bearer " ++ key);
     (lit "Content-Type", lit "application/json")]
    60000.

Definition anthropicRequest (diff key : jsstring) : Request :=
  mkRequest
    (lit "https://api.anthropic.com/v1/messages")
    (JObject [(lit "model", JString (lit "claude-3-haiku-20240307"));
              (lit "max_tokens", JNumber 200);
              (lit "messages", userMessages (promptFor diff))])
    [(lit "x-api-key", key);
     (lit "anthropic-version", lit "2023-06-01");
     (lit "Content-Type", lit "application/json")]
    60000.

Definition githubRequest (diff token : jsstring) : Request :=
  mkRequest
    (lit "https://models.inference.ai.azure.com/chat/completions")
    (JObject [(lit "model", JString (lit "gpt-4o-mini"));
              (lit "messages", userMessages (promptFor diff));
              (lit "max_tokens", JNumber 200)])
    [(lit "Authorization", lit "Bearer " ++ token);
     (lit "Content-Type", lit "application/json")]
    60000.

(** [candidates?.[0]?.content?.parts?.[0]?.text] *)
Definition geminiPath : list Step :=
  [Key (lit "candidates"); Idx 0; Key (lit "content"); Key (lit "parts"); Idx 0; Key (lit "text")].

(** [choices?.[0]?.message?.content] *)
Definition chatPath : list Step :=
  [Key (lit "choices"); Idx 0; Key (lit "message"); Key (lit "content")].

(** [content?.[0]?.text] *)
Definition anthropicPath : list Step :=
  [Key (lit "content"); Idx 0; Key (lit "text")].

(** [error.response?.status === n] *)
Definition status_is (status : option N) (n : N) : bool :=
  match status with
  | Some s => (s =? n)%N
  | None => false
  end.

(** [error.response?.status || error.message], as interpolated in a
    template string *)
Definition status_or_message (status : option N) (message : jsstring) : jsstring :=
  match status with
  | Some s => if (s =? 0)%N then message else of_N s
  | None => message
  end.

Section Ai.

Variable E : Externals.

(** [text.trim()] for a truthy [text] *)
Definition call_trim (text : JsValue) : M E jsstring :=
  match text with
  | JString s => ret (trim s)
  | _ => throw (Error (lit "text.trim is not a function"))
  end.

Definition generateWithGemini (diff key : jsstring) : M E jsstring :=
  try_catch
    (response_data <- axios_post E (geminiRequest diff key) ;;
     let text := opt_chain response_data geminiPath in
     if negb (truthy text)
     then throw (Error (lit "Empty response from Gemini"))
     else call_trim text)
    (fun error =>
       match error with
       | AxiosError status message =>
           if status_is status 401 || status_is status 403
           then throw (Error (lit "Invalid Gemini API key. Please run setup again."))
           else if status_is status 429
           then throw (Error (lit "Gemini API rate limit exceeded. Please wait a moment and try again."))
           else throw (Error (lit "Gemini API error: " ++ status_or_message status message))
       | _ => throw error
       end).

Definition generateWithOpenAI (diff key : jsstring) : M E jsstring :=
  try_catch
    (response_data <- axios_post E (openaiRequest diff key) ;;
     let text := opt_chain response_data chatPath in
     if negb (truthy text)
     then throw (Error (lit "Empty response from OpenAI"))
     else call_trim text)
    (fun error =>
       match error with
       | AxiosError status message =>
           if status_is status 401
           then throw (Error (lit "Invalid OpenAI API key. Please run setup again."))
           else throw (Error (lit "OpenAI API error: " ++ message))
       | _ => throw error
       end).

Definition generateWithAnthropic (diff key : jsstring) : M E jsstring :=
  try_catch
    (response_data <- axios_post E (anthropicRequest diff key) ;;
     let text := opt_chain response_data anthropicPath in
     if negb (truthy text)
     then throw (Error (lit "Empty response from Anthropic"))
     else call_trim text)
    (fun error =>
       match error with
       | AxiosError status message =>
           if status_is status 401
           then throw (Error (lit "Invalid Anthropic API key. Please run setup again."))
           else throw (Error (lit "Anthropic API error: " ++ message))
       | _ => throw error
       end).

Definition generateWithGitHub (diff token : jsstring) : M E jsstring :=
  try_catch
    (response_data <- axios_post E (githubRequest diff token) ;;
     let text := opt_chain response_data chatPath in
     if negb (truthy text)
     then throw (Error (lit "Empty response from GitHub Models"))
     else call_trim text)
    (fun error =>
       match error with
       | AxiosError status message =>
           if status_is status 401
           then throw (Error (lit "Invalid GitHub PAT. Please run setup again."))
           else throw (Error (lit "GitHub Models API error: " ++ message))
       | _ => throw error
       end).

Definition generateCommitMessage (diff : jsstring) (provider : AiProvider)
    (key : jsstring) : M E jsstring :=
  match provider with
  | gemini => generateWithGemini diff key
  | openai => generateWithOpenAI diff key
  | anthropic => generateWithAnthropic diff key
  | github => generateWithGitHub diff key
  end.

End Ai.

(* ================================================================== *)
(** ** lib/prompt.ts *)
(* ================================================================== *)

Definition providerNames (provider : AiProvider) : jsstring :=
  match provider with
  | gemini => lit "Gemini"
  | openai => lit "OpenAI"
  | anthropic => lit "Anthropic"
  | github => lit "GitHub"
  end.

Section Prompt.

Variable E : Externals.

Definition selectAiProvider : M E AiProvider :=
  provider <- select_provider E ;; ret provider.

Definition inputApiKey (provider : AiProvider) : M E jsstring :=
  key <- password E (lit "Enter your " ++ providerNames provider ++ lit " API key:") ;;
  ret (trim key).

Definition confirm (message : jsstring) : M E bool :=
  answer <- select_yes_no E message ;; ret answer.

End Prompt.

(* ================================================================== *)
(** ** index.ts *)
(* ================================================================== *)

(** The regular expression [/github\.com[:/](.+?)(?:\.git)?$/] of the
    [delete] command, as the backtracking matcher runs it. *)

(** [(?:\.git)?$]: the greedy optional group is tried first, then
    skipped; [$] holds at the end of the input only. *)
Definition match_git_suffix_end (s : jsstring) : bool :=
  match strip_prefix (lit ".git") s with
  | Some [] => true
  | _ => match s with [] => true | _ :: _ => false end
  end.

(** [(.+?)] followed by [(?:\.git)?$]: the lazy quantifier takes one
    character other than a line terminator, tries the rest of the
    pattern, and takes one more character when the rest fails.  The
    result is the text captured by the group. *)
Fixpoint match_lazy_segment (s : jsstring) : option jsstring :=
  match s with
  | [] => None
  | c :: s' =>
      if isLineTerminator c then None
      else if match_git_suffix_end s' then Some [c]
      else option_map (cons c) (match_lazy_segment s')
  end.

(** [[:/]] *)
Definition isColonOrSlash (c : N) : bool := ((c =? 58) || (c =? 47))%N.

(** The whole pattern anchored at the start of [s]. *)
Definition match_here (s : jsstring) : option jsstring :=
  match strip_prefix (lit "github.com") s with
  | Some (c :: rest) => if isColonOrSlash c then match_lazy_segment rest else None
  | _ => None
  end.

(** [remoteUrl.match(/github\.com[:/](.+?)(?:\.git)?$/)]: the leftmost
    position at which the pattern matches; [Some] carries [repoMatch[1]]. *)
Fixpoint repoMatch (remoteUrl : jsstring) : option jsstring :=
  match match_here remoteUrl with
  | Some captured => Some captured
  | None => match remoteUrl with
            | [] => None
            | _ :: rest => repoMatch rest
            end
  end.

(** [repoMatch[1].replace('.git', '')] *)
Definition repoNameOf (captured : jsstring) : jsstring :=
  replace captured (lit ".git") [].

(** The repository name the [delete] command works on, when the remote
    URL matches. *)
Definition deleteRepoName (remoteUrl : jsstring) : option jsstring :=
  option_map repoNameOf (repoMatch remoteUrl).

Definition git_remote_get_url : Cmd := git [lit "remote"; lit "get-url"; lit "origin"].
Definition gh_repo_delete (repoName : jsstring) : Cmd :=
  gh [lit "repo"; lit "delete"; repoName; lit "--yes"].
Definition gh_auth_refresh : Cmd :=
  mkCmd (lit "gh")
        [lit "auth"; lit "refresh"; lit "-h"; lit "github.com"; lit "-s"; lit "delete_repo"]
        true.
Definition git_remote_remove : Cmd := git [lit "remote"; lit "remove"; lit "origin"].

(** The question of the [delete] command, without the colouring. *)
Definition deleteQuestion (repoName : jsstring) : jsstring :=
  [9888%N; 65039%N] ++ lit "  Are you sure you want to DELETE " ++ repoName
    ++ lit "? This cannot be undone!".

Definition installQuestion : jsstring := lit "Would you like to install GitHub CLI now?".
Definition reconfigureQuestion : jsstring := lit "Reconfigure AI provider?".

Section Commands.

Variable E : Externals.
Variable folderName : jsstring.

(** [provider = await selectAiProvider(); apiKey = await
    inputApiKey(provider); setApiKey(provider, apiKey);] *)
Definition reconfigure : M E (AiProvider * jsstring) :=
  provider <- selectAiProvider E ;;
  key <- inputApiKey E provider ;;
  setApiKey E provider key ;;
  ret (provider, key).

(** "Check if setup is complete" *)
Definition push_setup_gate (message : option jsstring) : M E unit :=
  done <- isSetupComplete E ;;
  if negb done && negb (truthy_str message) then exit 1 else ret tt.

(** "Step 1: Check GitHub CLI" *)
Definition push_check_cli : M E unit :=
  installed <- isGhInstalled E ;;
  if negb installed
  then
    shouldInstall <- confirm E installQuestion ;;
    if shouldInstall
    then installGhCli E ;; exit 0
    else exit 1
  else ret tt.

(** "Step 2: Check GitHub authentication"; the result is
    [needsApiReconfigure]. *)
Definition push_check_auth : M E bool :=
  authenticated <- isGhAuthenticated E ;;
  if negb authenticated
  then loginGh E ;; ret true
  else ret false.

(** "Step 3: Check AI provider configuration (only if not using -m flag)" *)
Definition push_check_ai (message : option jsstring) (needsApiReconfigure : bool)
    : M E unit :=
  if negb (truthy_str message)
  then
    done <- isSetupComplete E ;;
    if negb done || needsApiReconfigure
    then reconfigure ;; ret tt
    else ret tt
  else ret tt.

(** "Step 4: Check git repository" *)
Definition push_check_repo : M E unit :=
  isRepo <- isGitRepo E ;;
  if negb isRepo then initGitRepo E else ret tt.

(** "Check remote" *)
Definition push_check_remote : M E unit :=
  remote <- hasRemote E ;;
  if negb remote then createGitHubRepo E folderName else ret tt.

(** "Check for changes" *)
Definition push_check_changes : M E unit :=
  changes <- hasChanges E ;;
  if negb changes then exit 0 else ret tt.

(** The [try] around [generateCommitMessage] and its [catch]: one
    offer to reconfigure, and one more attempt when it is accepted. *)
Definition generate_or_reconfigure (diff : jsstring) (provider : AiProvider)
    (key : jsstring) : M E jsstring :=
  try_catch
    (generateCommitMessage E diff provider key)
    (fun aiError =>
       shouldReconfigure <- confirm E reconfigureQuestion ;;
       if shouldReconfigure
       then
         pk <- reconfigure ;;
         generateCommitMessage E diff (fst pk) (snd pk)
       else exit 1).

(** The branch of "Step 5" without [options.message]. *)
Definition ai_commit_message : M E jsstring :=
  provider <- getAiProvider E ;;
  key <- getApiKey E ;;
  pk <- match provider, key with
        | Some p, Some (c :: k) => ret (p, c :: k)
        | _, _ => reconfigure
        end ;;
  diff <- getStagedDiff E ;;
  match diff with
  | [] => exit 0
  | _ :: _ => generate_or_reconfigure diff (fst pk) (snd pk)
  end.

(** "Step 5: Get commit message" *)
Definition push_commit_message (message : option jsstring) : M E jsstring :=
  match message with
  | Some (c :: m) => ret (c :: m)
  | _ => ai_commit_message
  end.

(** The action of [push], [message] being [options.message]. *)
Definition push_action (message : option jsstring) : M E unit :=
  try_catch
    (push_setup_gate message ;;
     push_check_cli ;;
     needsApiReconfigure <- push_check_auth ;;
     push_check_ai message needsApiReconfigure ;;
     push_check_repo ;;
     push_check_remote ;;
     push_check_changes ;;
     stageAll E ;;
     commitMessage <- push_commit_message message ;;
     commit E commitMessage ;;
     push E)
    (fun _ => exit 1).

(** [gh repo delete], retried once after asking for the [delete_repo]
    scope. *)
Definition deleteWithRetry (repoName : jsstring) : M E unit :=
  try_catch
    (execa E (gh_repo_delete repoName) ;; ret tt)
    (fun deleteError =>
       if includes (error_message deleteError) (lit "delete_repo")
       then
         execa E gh_auth_refresh ;;
         execa E (gh_repo_delete repoName) ;;
         ret tt
       else throw deleteError).

(** The action of [delete], [yes] being [options.yes]. *)
Definition delete_action (yes : bool) : M E unit :=
  try_catch
    (installed <- isGhInstalled E ;;
     (if negb installed then exit 1 else ret tt) ;;
     authenticated <- isGhAuthenticated E ;;
     (if negb authenticated then loginGh E else ret tt) ;;
     remote <- hasRemote E ;;
     (if negb remote then exit 1 else ret tt) ;;
     remoteUrl <- execa E git_remote_get_url ;;
     match repoMatch remoteUrl with
     | None => exit 1
     | Some captured =>
         let repoName := repoNameOf captured in
         (if negb yes
          then
            confirmed <- confirm E (deleteQuestion repoName) ;;
            if negb confirmed then exit 0 else ret tt
          else ret tt) ;;
         deleteWithRetry repoName ;;
         execa E git_remote_remove ;;
         ret tt
     end)
    (fun _ => exit 1).

End Commands.

(** The exit status of the process after a command handler. *)
Definition exit_code {A} (o : Outcome A) : Z :=
  match o with
  | Return _ => 0
  | Throw _ => 1
  | Exit c => c
  end.

(* ================================================================== *)
(** ** The other commands of index.ts *)
(* ================================================================== *)

Definition git_diff_cached_names : Cmd :=
  git [lit "diff"; lit "--cached"; lit "--name-only"].
Definition gh_api_user_login : Cmd :=
  gh [lit "api"; lit "user"; lit "--jq"; lit ".login"].
Definition logoutQuestion : jsstring := lit "Do you also want to logout from GitHub CLI?".

Section OtherCommands.

Variable E : Externals.

(** lib/git.ts: "Check if there are staged changes" *)
Definition hasStagedChanges : M E bool :=
  stdout <- execa E git_diff_cached_names ;; ret (nonBlank stdout).

(** The action of [setup]. *)
Definition setup_action : M E unit :=
  try_catch
    (installed <- isGhInstalled E ;;
     (if negb installed
      then
        shouldInstall <- confirm E installQuestion ;;
        if shouldInstall
        then installGhCli E ;; exit 0
        else exit 1
      else ret tt) ;;
     authenticated <- isGhAuthenticated E ;;
     (if authenticated then ret tt else loginGh E) ;;
     provider <- selectAiProvider E ;;
     key <- inputApiKey E provider ;;
     setApiKey E provider key)
    (fun _ => exit 1).

(** The action of [config]. *)
Definition config_action : M E unit :=
  try_catch
    (currentProvider <- getAiProvider E ;;
     provider <- selectAiProvider E ;;
     key <- inputApiKey E provider ;;
     setApiKey E provider key)
    (fun _ => exit 1).

(** The action of [repos] when [options.delete] is a name: the branch
    [if (options.delete)], which ends with [return]. *)
Definition repos_delete_action (name : jsstring) : M E unit :=
  try_catch
    (installed <- isGhInstalled E ;;
     (if negb installed then exit 1 else ret tt) ;;
     authenticated <- isGhAuthenticated E ;;
     (if negb authenticated then loginGh E else ret tt) ;;
     repoName <- (if negb (includes name (lit "/"))
                  then
                    username <- execa E gh_api_user_login ;;
                    ret (trim username ++ lit "/" ++ name)
                  else ret name) ;;
     confirmed <- confirm E (deleteQuestion repoName) ;;
     (if negb confirmed then exit 0 else ret tt) ;;
     deleteWithRetry E repoName)
    (fun _ => exit 1).

(** [logoutGh] is imported from lib/git.js by index.ts but is not defined
    in the git module at hand: the action of [logout] takes it as given. *)
Variable logoutGh : M E unit.

(** The action of [logout], [all] being [options.all]. *)
Definition logout_action (all : bool) : M E unit :=
  try_catch
    (configCleared <- clearConfig E ;;
     if all
     then
       shouldLogoutGh <- confirm E logoutQuestion ;;
       if shouldLogoutGh
       then try_catch logoutGh (fun _ => ret tt)
       else ret tt
     else ret tt)
    (fun _ => exit 1).

End OtherCommands.

(** How each provider client begins the message of its catch-all error. *)
Definition apiErrorPrefix (p : AiProvider) : jsstring :=
  match p with
  | gemini => lit "Gemini API error: "
  | openai => lit "OpenAI API error: "
  | anthropic => lit "Anthropic API error: "
  | github => lit "GitHub Models API error: "
  end.

(** The request each provider client posts. *)
Definition requestFor (p : AiProvider) (diff key : jsstring) : Request :=
  match p with
  | gemini => geminiRequest diff key
  | openai => openaiRequest diff key
  | anthropic => anthropicRequest diff key
  | github => githubRequest diff key
  end.

(* ================================================================== *)
(** ** The vocabulary of the specification *)
(* ================================================================== *)

(** The source tells the failures of the AI client apart only by the
    message of the [Error] it throws.  The specification names four
    kinds of failure; [classify] reads the kind off the message. *)
Inductive AiErrorKind : Type :=
| InvalidCredentials
| RateLimited
| EmptyResponse
| ProviderError.

Definition invalidKeyMessage (p : AiProvider) : jsstring :=
  match p with
  | gemini => lit "Invalid Gemini API key. Please run setup again."
  | openai => lit "Invalid OpenAI API key. Please run setup again."
  | anthropic => lit "Invalid Anthropic API key. Please run setup again."
  | github => lit "Invalid GitHub PAT. Please run setup again."
  end.

Definition rateLimitMessage : jsstring :=
  lit "Gemini API rate limit exceeded. Please wait a moment and try again.".

Definition emptyResponseMessage (p : AiProvider) : jsstring :=
  match p with
  | gemini => lit "Empty response from Gemini"
  | openai => lit "Empty response from OpenAI"
  | anthropic => lit "Empty response from Anthropic"
  | github => lit "Empty response from GitHub Models"
  end.

Definition allProviders : list AiProvider := [gemini; openai; anthropic; github].

Definition classify (e : JsError) : AiErrorKind :=
  let m := error_message e in
  if existsb (fun p => str_eqb m (invalidKeyMessage p)) allProviders then InvalidCredentials
  else if str_eqb m rateLimitMessage then RateLimited
  else if existsb (fun p => str_eqb m (emptyResponseMessage p)) allProviders then EmptyResponse
  else ProviderError.

(** The response text path documented for each provider. *)
Definition documentedPath (p : AiProvider) : list Step :=
  match p with
  | gemini =>
      [Key (lit "candidates"); Idx 0; Key (lit "content"); Key (lit "parts"); Idx 0;
       Key (lit "text")]
  | openai | github =>
      [Key (lit "choices"); Idx 0; Key (lit "message"); Key (lit "content")]
  | anthropic =>
      [Key (lit "content"); Idx 0; Key (lit "text")]
  end.

(** The value a payload holds at a path, when every step of the path is
    present. *)
Fixpoint at_path (v : JsValue) (path : list Step) : option JsValue :=
  match path with
  | [] => Some v
  | st :: rest =>
      match member v st with
      | Some v' => at_path v' rest
      | None => None
      end
  end.

(* ================================================================== *)
(** ** Scripted environments *)
(* ================================================================== *)

Fixpoint args_eqb (a b : list jsstring) : bool :=
  match a, b with
  | [], [] => true
  | x :: a', y :: b' => str_eqb x y && args_eqb a' b'
  | _, _ => false
  end.

Definition cmd_eqb (a b : Cmd) : bool :=
  str_eqb (file a) (file b) && args_eqb (args a) (args b) && Bool.eqb (inherit a) (inherit b).

(** An environment without hidden state: every interaction has a fixed
    answer. *)
Record Script : Type := mkScript {
  on_execa : Cmd -> ExecaResult;
  on_post : Request -> PostResult;
  on_provider : Answer AiProvider;
  on_yes_no : jsstring -> Answer bool;
  on_password : jsstring -> Answer jsstring;
  on_install : option JsError
}.

Definition scripted (s : Script) : Externals :=
  mkExternals unit
    (fun c x => (on_execa s c, x))
    (fun q x => (on_post s q, x))
    (fun x => (on_provider s, x))
    (fun m x => (on_yes_no s m, x))
    (fun m x => (on_password s m, x))
    (fun x => (on_install s, x)).

(** A working tree with changes, a remote named [origin], [gh] installed
    and logged in; the provider answers every request with [reply], and
    the user answers [yes] to every question, picks [openai] and types a
    key. *)
Definition usualScript (reply : PostResult) (yes : bool) : Script :=
  mkScript
    (fun c =>
       if cmd_eqb c git_remote then ExecaOk (lit "origin")
       else if cmd_eqb c git_status then ExecaOk (lit " M index.ts")
       else if cmd_eqb c git_diff_cached then ExecaOk (lit "diff --git a/index.ts b/index.ts")
       else if cmd_eqb c git_branch then ExecaOk (lit "main")
       else ExecaOk [])
    (fun _ => reply)
    (Answered openai)
    (fun _ => Answered yes)
    (fun _ => Answered (lit " sk-test "))
    None.

(** The same, but [gh auth status] fails: the user is not logged in. *)
Definition loggedOutScript (reply : PostResult) (yes : bool) : Script :=
  let s := usualScript reply yes in
  mkScript
    (fun c => if cmd_eqb c gh_auth_status then ExecaFail (lit "not logged in")
              else on_execa s c)
    (on_post s) (on_provider s) (on_yes_no s) (on_password s) (on_install s).

Definition status401 : PostResult :=
  Rejected (AxiosError (Some 401%N) (lit "Request failed with status code 401")).

(** A Gemini payload with [text] at [candidates[0].content.parts[0].text]. *)
Definition geminiReply (text : jsstring) : PostResult :=
  Resolved
    (JObject [(lit "candidates",
               JArray [JObject [(lit "content",
                                 JObject [(lit "parts",
                                           JArray [JObject [(lit "text", JString text)]])])]])]).

Definition unauthorizedEnv : Externals := scripted (usualScript status401 false).

Definition paddedReplyEnv : Externals :=
  scripted (usualScript (geminiReply (lit "  feat: add new feature  " ++ [10%N])) false).

Definition noCandidatesEnv : Externals :=
  scripted (usualScript (Resolved (JObject [(lit "candidates", JArray [])])) false).

(** An OpenAI payload with [text] at [choices[0].message.content]. *)
Definition openaiReply (text : jsstring) : PostResult :=
  Resolved
    (JObject [(lit "choices",
               JArray [JObject [(lit "message",
                                 JObject [(lit "content", JString text)])]])]).

(** Everything works and the user says yes. *)
Definition readyEnv : Externals :=
  scripted (usualScript (openaiReply (lit "feat: add new feature")) true).

(** The same for a user who has to log in first. *)
Definition freshLoginEnv : Externals :=
  scripted (loggedOutScript (openaiReply (lit "feat: add new feature")) true).

(** The same with a sole remote named origin-backup. *)
Definition backupRemoteEnv : Externals :=
  let s := usualScript (openaiReply (lit "feat: add new feature")) true in
  scripted
    (mkScript
       (fun c => if cmd_eqb c git_remote then ExecaOk (lit "origin-backup")
                 else on_execa s c)
       (on_post s) (on_provider s) (on_yes_no s) (on_password s) (on_install s)).


Definition configured : ConfigFs :=
  File (Json (mkConfig (Some gemini) (Some (lit "key-1")) (Some true))).

(** The provider answers with white space only. *)
Definition blankReplyEnv : Externals :=
  scripted (usualScript (openaiReply (lit "  " ++ [10%N])) true).

(** The provider answers with a number where the text should be. *)
Definition numberReplyEnv : Externals :=
  scripted
    (usualScript
       (Resolved (JObject [(lit "content", JArray [JObject [(lit "text", JNumber 42)]])]))
       true).

(** The provider answers with status 500. *)
Definition serverErrorEnv : Externals :=
  scripted (usualScript (Rejected (AxiosError (Some 500%N) (lit "Request failed"))) true).

(** The remote is https://github.com/user/repo.git; the user answers
    [yes] to every question. *)
Definition remoteUrlScript (reply : PostResult) (yes : bool) : Script :=
  let s := usualScript reply yes in
  mkScript
    (fun c => if cmd_eqb c git_remote_get_url
              then ExecaOk (lit "https://github.com/user/repo.git")
              else on_execa s c)
    (on_post s) (on_provider s) (on_yes_no s) (on_password s) (on_install s).

Definition decliningEnv : Externals :=
  scripted (remoteUrlScript (openaiReply (lit "feat: add new feature")) false).

Definition agreeingEnv : Externals :=
  scripted (remoteUrlScript (openaiReply (lit "feat: add new feature")) true).

(** [git status --porcelain] prints nothing. *)
Definition cleanTreeEnv : Externals :=
  let s := usualScript (openaiReply (lit "feat: add new feature")) true in
  scripted
    (mkScript
       (fun c => if cmd_eqb c git_status then ExecaOk [] else on_execa s c)
       (on_post s) (on_provider s) (on_yes_no s) (on_password s) (on_install s)).

(** [git diff --cached] prints nothing. *)
Definition emptyDiffEnv : Externals :=
  let s := usualScript (openaiReply (lit "feat: add new feature")) true in
  scripted
    (mkScript
       (fun c => if cmd_eqb c git_diff_cached then ExecaOk [] else on_execa s c)
       (on_post s) (on_provider s) (on_yes_no s) (on_password s) (on_install s)).

(** [gh --version] fails; the user accepts the offer to install the
    GitHub CLI. *)
Definition missingCliEnv : Externals :=
  let s := usualScript (openaiReply (lit "feat: add new feature")) true in
  scripted
    (mkScript
       (fun c => if cmd_eqb c gh_version then ExecaFail (lit "spawn gh ENOENT")
                 else on_execa s c)
       (on_post s) (on_provider s) (on_yes_no s) (on_password s) (on_install s)).

(* ================================================================== *)
(** ** Reasoning about traces *)
(* ================================================================== *)

Section TraceLogic.

Variable E : Externals.

(** Whatever the world, [m] appends a list of events to the trace, and
    its outcome and that list satisfy [Q]. *)
Definition holds {A} (m : M E A) (Q : Outcome A -> list Event -> Prop) : Prop :=
  forall w, exists l, trace (snd (m w)) = trace w ++ l /\ Q (fst (m w)) l.

(** Every event [m] appends satisfies [P]. *)
Definition only (P : Event -> Prop) {A} (m : M E A) : Prop :=
  holds m (fun _ l => Forall P l).

End TraceLogic.

Arguments holds {E A} m Q.
Arguments only {E} P {A} m.

(** The user answers No to the offer to reconfigure the AI provider. *)
Definition declined : Event := EvConfirm reconfigureQuestion (Answered false).

(** Events of selecting a provider, typing a key and saving them. *)
Definition config_event (ev : Event) : Prop :=
  match ev with
  | EvSelectProvider _ | EvPassword _ _ | EvMkdir | EvWriteConfig _ => True
  | _ => False
  end.

(** Events of "Step 5: Get commit message". *)
Definition message_event (ev : Event) : Prop :=
  match ev with
  | EvSelectProvider _ | EvPassword _ _ | EvMkdir | EvWriteConfig _ | EvPost _ _ => True
  | EvExeca c _ => c = git_diff_cached
  | EvConfirm q _ => q = reconfigureQuestion
  | _ => False
  end.

(** Neither a [git commit] nor an answer about reconfiguring. *)
Definition no_commit_no_offer (ev : Event) : Prop :=
  match ev with
  | EvExeca c _ => forall m, c <> git_commit m
  | EvConfirm q _ => q <> reconfigureQuestion
  | _ => True
  end.

(** Neither [git remote] nor [gh repo create]. *)
Definition no_remote_no_create (folderName : jsstring) (ev : Event) : Prop :=
  match ev with
  | EvExeca c _ => c <> git_remote /\ c <> gh_repo_create folderName
  | _ => True
  end.

(** What "Step 5" of [push] does: its events, and how it ends once the
    user has declined to reconfigure. *)
Definition message_step_post {A} (o : Outcome A) (l : list Event) : Prop :=
  Forall message_event l /\
  (In declined l ->
   o = Exit 1 /\ exists before q r, l = before ++ [EvPost q r; declined]).

(** What a run of [push] looks like once the user has declined to
    reconfigure. *)
Definition after_decline {A} (o : Outcome A) (l : list Event) : Prop :=
  In declined l ->
  o = Exit 1 /\
  (forall m r, ~ In (EvExeca (git_commit m) r) l) /\
  (exists before out after,
     l = before ++ EvExeca git_add (ExecaOk out) :: after /\
     Forall (fun ev => forall c r, ev = EvExeca c r -> c = git_diff_cached) after) /\
  (exists before q r, l = before ++ [EvPost q r; declined]).

(** A remote list naming origin keeps [gh repo create] out of the trace. *)
Definition creation_skipped {A} (folderName : jsstring) (o : Outcome A) (l : list Event) : Prop :=
  forall out,
    In (EvExeca git_remote (ExecaOk out)) l ->
    remoteListed out = true ->
    forall r, ~ In (EvExeca (gh_repo_create folderName) r) l.

(* ================================================================== *)
(** ** More vocabulary for runs *)
(* ================================================================== *)

(** Every status with which [m] ends the process satisfies [R]. *)
Definition ends_in {E A} (R : Z -> Prop) (m : M E A) : Prop :=
  holds m (fun o _ => forall c, o = Exit c -> R c).


(** With a literal message: no request to a provider, no prompt for a
    provider or a key, no write to the configuration, and no commit
    message but the literal one. *)
Definition literal_only (literal : jsstring) (ev : Event) : Prop :=
  match ev with
  | EvPost _ _ | EvSelectProvider _ | EvPassword _ _
  | EvMkdir | EvWriteConfig _ | EvUnlinkConfig => False
  | EvExeca c _ => forall m, c = git_commit m -> m = literal
  | _ => True
  end.

(** Before the check for changes: no [git status], nothing staged,
    committed or pushed. *)
Definition before_changes (ev : Event) : Prop :=
  match ev with
  | EvExeca c _ =>
      c <> git_status /\ c <> git_add /\ (forall m, c <> git_commit m) /\
      (forall b, c <> git_push b)
  | _ => True
  end.

Definition no_status (ev : Event) : Prop :=
  match ev with
  | EvExeca c _ => c <> git_status
  | _ => True
  end.

(** What a run of [push] looks like when [git status] printed nothing
    but white space. *)
Definition nothing_to_commit {A} (o : Outcome A) (l : list Event) : Prop :=
  forall out,
    In (EvExeca git_status (ExecaOk out)) l ->
    nonBlank out = false ->
    o = Exit 0 /\
    (exists before, l = before ++ [EvExeca git_status (ExecaOk out)]) /\
    (forall c r, In (EvExeca c r) l ->
                 c <> git_add /\ (forall m, c <> git_commit m) /\ (forall b, c <> git_push b)).

(** A run that returns has committed, asked for the branch and pushed
    it, all three with success, as its last three steps. *)
Definition pushed_at_the_end (message : option jsstring) (o : Outcome unit)
    (l : list Event) : Prop :=
  o = Return tt ->
  exists before m out1 out2 out3,
    l = before ++ [EvExeca (git_commit m) (ExecaOk out1);
                   EvExeca git_branch (ExecaOk out2);
                   EvExeca (git_push (branchOrMain out2)) (ExecaOk out3)] /\
    (forall c t, message = Some (c :: t) -> m = c :: t).

Definition is_post (ev : Event) : bool :=
  match ev with
  | EvPost _ _ => true
  | _ => false
  end.

Definition count_posts (l : list Event) : nat := List.length (filter is_post l).

(** The user answers Yes to the offer to reconfigure the AI provider. *)
Definition accepted : Event := EvConfirm reconfigureQuestion (Answered true).

Definition not_a_post (ev : Event) : Prop := is_post ev = false.

(** At most two requests, and two only after the offer was accepted. *)
Definition at_most_two_posts {A} (o : Outcome A) (l : list Event) : Prop :=
  (count_posts l <= 2)%nat /\ (count_posts l = 2%nat -> In accepted l).

(** [git diff --cached] printed nothing. *)
Definition empty_diff : Event := EvExeca git_diff_cached (ExecaOk []).

(** Before the staged diff is read: no [git diff --cached], no commit,
    no request. *)
Definition before_diff (ev : Event) : Prop :=
  match ev with
  | EvExeca c _ => c <> git_diff_cached /\ forall m, c <> git_commit m
  | EvPost _ _ => False
  | _ => True
  end.

(** What "Step 5" of [push] does about requests and about an empty
    staged diff. *)
Definition message_step_shape {A} (o : Outcome A) (l : list Event) : Prop :=
  Forall message_event l /\
  (count_posts l <= 2)%nat /\
  (count_posts l = 2%nat -> In accepted l) /\
  (In empty_diff l ->
   o = Exit 0 /\ count_posts l = 0%nat /\ exists before, l = before ++ [empty_diff]).

(** What a run of [push] looks like when the staged diff is empty. *)
Definition nothing_staged {A} (o : Outcome A) (l : list Event) : Prop :=
  In empty_diff l ->
  o = Exit 0 /\
  (forall q r, ~ In (EvPost q r) l) /\
  (forall m r, ~ In (EvExeca (git_commit m) r) l) /\
  (exists before, l = before ++ [empty_diff]).

(** The user answers No to a question. *)
Definition refused (ev : Event) : Prop := exists q, ev = EvConfirm q (Answered false).

(** Commands of the [delete] command that change something. *)
Definition deletes_something (c : Cmd) : Prop :=
  c = gh_auth_refresh \/ c = git_remote_remove \/ exists n, c = gh_repo_delete n.

(** What a run of [delete] does. *)
Definition delete_shape {A} (o : Outcome A) (l : list Event) : Prop :=
  (forall q, In (EvConfirm q (Answered false)) l ->
     o = Exit 0 /\ forall c r, In (EvExeca c r) l -> ~ deletes_something c) /\
  (forall n r, In (EvExeca (gh_repo_delete n) r) l ->
     exists remoteUrl captured,
       In (EvExeca git_remote_get_url (ExecaOk remoteUrl)) l /\
       repoMatch remoteUrl = Some captured /\ n = repoNameOf captured) /\
  (forall r, In (EvExeca git_remote_remove r) l ->
     exists n out, In (EvExeca (gh_repo_delete n) (ExecaOk out)) l) /\
  (forall remoteUrl, In (EvExeca git_remote_get_url (ExecaOk remoteUrl)) l ->
     repoMatch remoteUrl = None ->
     o = Exit 1 /\ forall c r, In (EvExeca c r) l -> ~ deletes_something c) /\
  (forall out, In (EvExeca git_remote (ExecaOk out)) l -> remoteListed out = false ->
     o = Exit 1 /\ forall c r, In (EvExeca c r) l -> ~ deletes_something c).

Definition not_a_question (ev : Event) : Prop :=
  match ev with
  | EvConfirm _ _ => False
  | _ => True
  end.

(** What a run of [setup] does about the configuration. *)
Definition setup_shape {A} (o : Outcome A) (l : list Event) : Prop :=
  ((exists a, o = Return a) -> exists c, In (EvWriteConfig c) l) /\
  (forall c, In (EvWriteConfig c) l ->
     (exists a, o = Return a) /\
     (exists out, In (EvExeca gh_version (ExecaOk out)) l) /\
     ((exists out, In (EvExeca gh_auth_status (ExecaOk out)) l) \/
      (exists out, In (EvExeca gh_auth_login (ExecaOk out)) l)) /\
     exists p q raw,
       In (EvSelectProvider (Answered p)) l /\
       In (EvPassword q (Answered raw)) l /\
       c = mkConfig (Some p) (Some (trim raw)) (Some true)).

(** What a run of [repos --delete name] does. *)
Definition repos_delete_shape {A} (name : jsstring) (o : Outcome A) (l : list Event) : Prop :=
  (forall n r, In (EvExeca (gh_repo_delete n) r) l ->
     (includes name (lit "/") = true /\ n = name) \/
     (includes name (lit "/") = false /\
      exists login,
        In (EvExeca gh_api_user_login (ExecaOk login)) l /\
        n = trim login ++ lit "/" ++ name)) /\
  (forall r, In (EvExeca gh_api_user_login r) l -> includes name (lit "/") = false) /\
  (forall q, In (EvConfirm q (Answered false)) l ->
     o = Exit 0 /\ forall c r, In (EvExeca c r) l -> ~ deletes_something c).

(** Events of the offer to install the GitHub CLI. *)
Definition install_event (ev : Event) : Prop :=
  match ev with
  | EvExeca c _ => c = gh_version
  | EvConfirm q _ => q = installQuestion
  | EvInstallGhCli _ => True
  | _ => False
  end.

Definition no_version (ev : Event) : Prop :=
  match ev with
  | EvExeca c _ => c <> gh_version
  | _ => True
  end.

Definition nothing_at_all (ev : Event) : Prop := False.

(** What a run of [push] looks like when [gh --version] fails. *)
Definition cli_missing {A} (o : Outcome A) (l : list Event) : Prop :=
  forall m,
    In (EvExeca gh_version (ExecaFail m)) l ->
    Forall install_event l /\
    ((o = Exit 0 /\ In (EvInstallGhCli None) l /\
      In (EvConfirm installQuestion (Answered true)) l) \/
     ((o = Exit 1 \/ exists e, o = Throw e) /\ ~ In (EvInstallGhCli None) l)).

(* ================================================================== *)
(** * Properties *)
(* ================================================================== *)

(** ** Strings *)

Lemma strip_prefix_Some pat s r :
  strip_prefix pat s = Some r <-> s = pat ++ r.
Proof.
  revert s; induction pat as [|p pat IH]; intros s; simpl.
  - split; congruence.
  - destruct s as [|c s].
    + split; discriminate.
    + destruct (N.eqb_spec p c) as [->|Hne].
      * rewrite IH. split; congruence.
      * split; [discriminate | intros H; injection H; intros; congruence].
Qed.

Lemma strip_prefix_app pat r : strip_prefix pat (pat ++ r) = Some r.
Proof. now apply strip_prefix_Some. Qed.

Lemma includes_true s pat :
  includes s pat = true <-> exists a b, s = a ++ pat ++ b.
Proof.
  induction s as [|c s IH]; simpl.
  - destruct (strip_prefix pat []) as [r|] eqn:Hp.
    + split; [intros _ | reflexivity].
      apply strip_prefix_Some in Hp. now exists [], r.
    + split; [discriminate|].
      intros (a & b & H).
      destruct a; [|discriminate].
      simpl in H. rewrite H, strip_prefix_app in Hp. discriminate.
  - destruct (strip_prefix pat (c :: s)) as [r|] eqn:Hp.
    + split; [intros _ | reflexivity].
      apply strip_prefix_Some in Hp. now exists [], r.
    + rewrite IH. split.
      * intros (a & b & ->). now exists (c :: a), b.
      * intros (a & b & H). destruct a as [|c' a].
        -- simpl in H. rewrite H, strip_prefix_app in Hp. discriminate.
        -- injection H as _ ->. now exists a, b.
Qed.

Lemma includes_false_replace s pat rep :
  includes s pat = false -> replace s pat rep = s.
Proof.
  induction s as [|c s IH]; simpl.
  - now destruct (strip_prefix pat []).
  - destruct (strip_prefix pat (c :: s)); [discriminate|].
    intros H. now rewrite IH.
Qed.

(** [replace] rewrites the leftmost occurrence of the pattern. *)
Lemma includes_true_replace s pat rep :
  includes s pat = true ->
  exists a b, s = a ++ pat ++ b /\ replace s pat rep = a ++ rep ++ b /\
              forall a' b', s = a' ++ pat ++ b' -> (List.length a <= List.length a')%nat.
Proof.
  induction s as [|c s IH]; simpl.
  - destruct (strip_prefix pat []) as [r|] eqn:Hp; [|discriminate].
    intros _. apply strip_prefix_Some in Hp.
    exists [], r. repeat split; auto. intros; simpl; lia.
  - destruct (strip_prefix pat (c :: s)) as [r|] eqn:Hp.
    + intros _. apply strip_prefix_Some in Hp.
      exists [], r. repeat split; auto. intros; simpl; lia.
    + intros H. destruct (IH H) as (a & b & -> & Hr & Hmin).
      exists (c :: a), b. repeat split.
      * simpl. now rewrite Hr.
      * intros a' b' Heq. destruct a' as [|c' a'].
        -- simpl in Heq. rewrite Heq, strip_prefix_app in Hp. discriminate.
        -- injection Heq as _ Heq. specialize (Hmin _ _ Heq). simpl. lia.
Qed.

Lemma trimStart_split s :
  exists l, s = l ++ trimStart s /\ Forall (fun c => isTrimmed c = true) l.
Proof.
  induction s as [|c s (l & Hl & Hf)]; simpl.
  - now exists [].
  - destruct (isTrimmed c) eqn:Hc.
    + exists (c :: l). split; [simpl; congruence | now constructor].
    + now exists [].
Qed.

Lemma trimStart_head s c r : trimStart s = c :: r -> isTrimmed c = false.
Proof.
  induction s as [|d s IH]; simpl; [discriminate|].
  destruct (isTrimmed d) eqn:Hd; [assumption|].
  intros H; injection H; intros; subst; assumption.
Qed.

Lemma trimStart_keeps_last s c :
  isTrimmed c = false -> trimStart (s ++ [c]) = trimStart s ++ [c].
Proof.
  intros Hc. induction s as [|d s IH]; simpl.
  - now rewrite Hc.
  - destruct (isTrimmed d); [assumption | reflexivity].
Qed.

(** [trim] removes a run of white space and line terminators at each
    end, and nothing else. *)
Lemma trim_spec s :
  exists l r,
    s = l ++ trim s ++ r /\
    Forall (fun c => isTrimmed c = true) l /\
    Forall (fun c => isTrimmed c = true) r /\
    (forall c t, trim s = c :: t -> isTrimmed c = false) /\
    (forall t c, trim s = t ++ [c] -> isTrimmed c = false).
Proof.
  unfold trim, trimEnd.
  destruct (trimStart_split s) as (l & Hl & Hfl).
  destruct (trimStart_split (rev (trimStart s))) as (r & Hr & Hfr).
  exists l, (rev r). split; [|split; [|split; [|split]]].
  - rewrite Hl at 1. f_equal.
    rewrite <- rev_app_distr, <- Hr. now rewrite rev_involutive.
  - assumption.
  - apply Forall_forall. intros x Hx. apply in_rev in Hx.
    now apply (proj1 (Forall_forall _ _) Hfr).
  - intros c t Ht.
    apply (f_equal (@rev N)) in Ht. rewrite rev_involutive in Ht. simpl in Ht.
    rewrite Ht in Hr.
    apply (f_equal (@rev N)) in Hr.
    rewrite rev_involutive, !rev_app_distr in Hr. simpl in Hr.
    now apply trimStart_head in Hr.
  - intros t c Ht.
    apply (f_equal (@rev N)) in Ht. rewrite rev_involutive, rev_app_distr in Ht.
    simpl in Ht. now apply trimStart_head in Ht.
Qed.

(** ** Running a wrapper against a known answer of the environment *)

Lemma execa_run E c w r x :
  run_execa E c (ext w) = (r, x) ->
  execa E c w =
    (match r with
     | ExecaOk out => Return out
     | ExecaFail m => Throw (Error m)
     end,
     mkWorld E (fs w) (trace w ++ [EvExeca c r]) x).
Proof. unfold execa. intros ->. now destruct r. Qed.


Lemma hasRemote_run E w r x :
  run_execa E git_remote (ext w) = (r, x) ->
  fst (hasRemote E w) =
    Return (match r with ExecaOk out => remoteListed out | ExecaFail _ => false end).
Proof.
  intros H. unfold hasRemote, try_catch, bind. rewrite (execa_run _ _ _ _ _ H).
  now destruct r.
Qed.

(** ** The repository name of the [delete] command *)

(** C7. The remote-URL parsing of the delete command maps both the HTTPS
    form https://github.com/user/repo.git and the SSH form
    git@github.com:user/repo.git to the repository name user/repo: the
    regular expression captures user/repo in both, and the name passed on
    is user/repo. *)
Theorem remote_url_forms_parse_to_user_repo :
  repoMatch (lit "https://github.com/user/repo.git") = Some (lit "user/repo") /\
  repoMatch (lit "git@github.com:user/repo.git") = Some (lit "user/repo") /\
  deleteRepoName (lit "https://github.com/user/repo.git") = Some (lit "user/repo") /\
  deleteRepoName (lit "git@github.com:user/repo.git") = Some (lit "user/repo").
Proof. repeat split; reflexivity. Qed.

Lemma app_shorter (a b : jsstring) : a ++ b <> a ++ lit ".git" ++ b.
Proof.
  intros H. apply (f_equal (@List.length N)) in H.
  rewrite !length_app in H. simpl in H. lia.
Qed.

(** C10. In the delete command the name is the captured owner/repo
    segment with the first occurrence of .git removed: a segment that
    contains .git (such as user/my.gitrepo) yields a different name
    (user/myrepo), a segment without .git is passed through unchanged. *)
Theorem delete_name_drops_first_dot_git (remoteUrl captured : jsstring) :
  repoMatch remoteUrl = Some captured ->
  (includes captured (lit ".git") = true ->
     exists a b,
       captured = a ++ lit ".git" ++ b /\
       (forall a' b', captured = a' ++ lit ".git" ++ b' ->
                      (List.length a <= List.length a')%nat) /\
       deleteRepoName remoteUrl = Some (a ++ b) /\
       a ++ b <> captured) /\
  (includes captured (lit ".git") = false ->
     deleteRepoName remoteUrl = Some captured) /\
  (captured = lit "user/my.gitrepo" ->
     deleteRepoName remoteUrl = Some (lit "user/myrepo")).
Proof.
  intros Hm. unfold deleteRepoName, repoNameOf. rewrite Hm. simpl option_map.
  split; [|split].
  - intros Hi.
    destruct (includes_true_replace captured (lit ".git") [] Hi) as (a & b & Hc & Hr & Hmin).
    exists a, b. rewrite Hr. simpl. repeat split; auto.
    rewrite Hc. apply app_shorter.
  - intros Hi. now rewrite includes_false_replace.
  - intros ->. reflexivity.
Qed.

Lemma delete_name_drops_first_dot_git_witness :
  repoMatch (lit "https://github.com/user/my.gitrepo") = Some (lit "user/my.gitrepo") /\
  deleteRepoName (lit "https://github.com/user/my.gitrepo") = Some (lit "user/myrepo").
Proof.
  split; [reflexivity|].
  apply (delete_name_drops_first_dot_git
           (lit "https://github.com/user/my.gitrepo") (lit "user/my.gitrepo"));
    reflexivity.
Defined.

(** ** The current branch *)



(** ** The AI provider client *)

Lemma opt_chain_undefined path : opt_chain JUndefined path = JUndefined.
Proof. induction path as [|st path IH]; [reflexivity|]. now destruct st. Qed.

(** Optional chaining finds the value at a path, and [undefined] when a
    step of the path is missing. *)
Lemma opt_chain_at_path path : forall d,
  opt_chain d path =
    match at_path d path with
    | Some v => v
    | None => JUndefined
    end.
Proof.
  induction path as [|st path IH]; intros d; [reflexivity|].
  change (opt_chain d (st :: path)) with (opt_chain (opt_member d st) path).
  simpl at_path. unfold opt_member.
  destruct (member d st); [apply IH | apply opt_chain_undefined].
Qed.

Lemma codePath_documented :
  geminiPath = documentedPath gemini /\ chatPath = documentedPath openai /\
  anthropicPath = documentedPath anthropic /\ chatPath = documentedPath github.
Proof. repeat split. Qed.

Ltac run_generate Hpost :=
  unfold generateCommitMessage, generateWithGemini, generateWithOpenAI,
    generateWithAnthropic, generateWithGitHub, try_catch, bind, axios_post;
  match goal with
  | |- context [run_post ?E ?q ?x] =>
      let r := fresh "r" in
      let x' := fresh "x" in
      specialize (Hpost q); destruct (run_post E q x) as [r x'];
      simpl in Hpost; subst r
  end.

(** C1. When the POST fails with status 401, generateCommitMessage fails
    with the invalid-credentials error for every provider; for gemini,
    status 403 gives the same error and status 429 the rate-limit error;
    for the other three providers 403 and 429 give the generic provider
    error. *)
Theorem http_status_classification E diff p key (w : World E) status message :
  (forall q, fst (run_post E q (ext w)) = Rejected (AxiosError (Some status) message)) ->
  let outcome := fst (generateCommitMessage E diff p key w) in
  (status = 401%N ->
     outcome = Throw (Error (invalidKeyMessage p)) /\
     classify (Error (invalidKeyMessage p)) = InvalidCredentials) /\
  (p = gemini -> status = 403%N ->
     outcome = Throw (Error (invalidKeyMessage gemini)) /\
     classify (Error (invalidKeyMessage gemini)) = InvalidCredentials) /\
  (p = gemini -> status = 429%N ->
     outcome = Throw (Error rateLimitMessage) /\
     classify (Error rateLimitMessage) = RateLimited) /\
  (p <> gemini -> status = 403%N \/ status = 429%N ->
     exists e, outcome = Throw e /\ classify e = ProviderError).
Proof.
  intros Hpost outcome. subst outcome.
  split; [|split; [|split]].
  - intros ->. split; [|now destruct p].
    destruct p; run_generate Hpost; reflexivity.
  - intros -> ->. split; [|reflexivity]. run_generate Hpost. reflexivity.
  - intros -> ->. split; [|reflexivity]. run_generate Hpost. reflexivity.
  - intros Hp Hst.
    destruct p; [congruence| | |];
      run_generate Hpost;
      (destruct Hst; subst status; eexists; split; reflexivity).
Qed.

Lemma http_status_classification_witness :
  fst (generateCommitMessage unauthorizedEnv (lit "diff") anthropic (lit "key")
         (start unauthorizedEnv NoFile tt))
  = Throw (Error (invalidKeyMessage anthropic)).
Proof.
  destruct (http_status_classification unauthorizedEnv
              (lit "diff") anthropic (lit "key") (start unauthorizedEnv NoFile tt)
              401%N (lit "Request failed with status code 401"))
    as (H401 & _); [intros q; reflexivity|].
  apply H401. reflexivity.
Defined.

(** C4. For every provider, when the POST succeeds and the payload holds
    a text at the documented response path, generateCommitMessage
    returns that text with the white space at both ends removed, and
    nothing else removed. *)
Theorem response_text_returned_trimmed E diff p key (w : World E) d s :
  (forall q, fst (run_post E q (ext w)) = Resolved d) ->
  at_path d (documentedPath p) = Some (JString s) ->
  s <> [] ->
  fst (generateCommitMessage E diff p key w) = Return (trim s) /\
  exists l r,
    s = l ++ trim s ++ r /\
    Forall (fun c => isTrimmed c = true) l /\
    Forall (fun c => isTrimmed c = true) r /\
    (forall c t, trim s = c :: t -> isTrimmed c = false) /\
    (forall t c, trim s = t ++ [c] -> isTrimmed c = false).
Proof.
  intros Hpost Hpath Hs. split; [|apply trim_spec].
  destruct p; run_generate Hpost;
    rewrite opt_chain_at_path;
    unfold geminiPath, chatPath, anthropicPath; unfold documentedPath in Hpath;
    rewrite Hpath; (destruct s; [congruence | reflexivity]).
Qed.

Lemma response_text_returned_trimmed_witness :
  fst (generateCommitMessage paddedReplyEnv (lit "diff") gemini (lit "key")
         (start paddedReplyEnv NoFile tt))
  = Return (lit "feat: add new feature").
Proof.
  refine (proj1 (response_text_returned_trimmed paddedReplyEnv
                   (lit "diff") gemini (lit "key") (start paddedReplyEnv NoFile tt)
                   _ (lit "  feat: add new feature  " ++ [10%N]) _ _ _)).
  - intros q. reflexivity.
  - reflexivity.
  - discriminate.
Defined.

(** C5. For every provider, when the POST succeeds and the documented
    text path is absent from the payload or holds an empty (falsy)
    value, generateCommitMessage fails with the empty-response error: it
    returns no string and fails with no other kind of error. *)
Theorem missing_text_is_empty_response E diff p key (w : World E) d :
  (forall q, fst (run_post E q (ext w)) = Resolved d) ->
  (at_path d (documentedPath p) = None \/
   exists v, at_path d (documentedPath p) = Some v /\ truthy v = false) ->
  fst (generateCommitMessage E diff p key w) = Throw (Error (emptyResponseMessage p)) /\
  classify (Error (emptyResponseMessage p)) = EmptyResponse.
Proof.
  intros Hpost Hpath. split; [|now destruct p].
  assert (Ht : truthy (opt_chain d (documentedPath p)) = false).
  { rewrite opt_chain_at_path. destruct Hpath as [-> | (v & -> & Hv)]; auto. }
  destruct p; run_generate Hpost;
    unfold geminiPath, chatPath, anthropicPath; unfold documentedPath in Ht;
    rewrite Ht; reflexivity.
Qed.

Lemma missing_text_is_empty_response_witness :
  fst (generateCommitMessage noCandidatesEnv (lit "diff") gemini (lit "key")
         (start noCandidatesEnv NoFile tt))
  = Throw (Error (emptyResponseMessage gemini)).
Proof.
  refine (proj1 (missing_text_is_empty_response noCandidatesEnv
                   (lit "diff") gemini (lit "key") (start noCandidatesEnv NoFile tt)
                   _ _ _)).
  - intros q. reflexivity.
  - left. reflexivity.
Defined.

(** ** The configuration store *)

Ltac run_config :=
  unfold setApiKey, saveConfig, ensureConfigDir, isSetupComplete, clearConfig, getConfig,
    try_catch, bind, existsSync_dir, existsSync_file, mkdirSync, readFileSync,
    JSON_parse, writeFileSync, unlinkSync, ret, throw, log, set_fs;
  simpl.

(** [setApiKey] never fails and leaves the three fields in the file,
    whatever was on disk before. *)
Lemma setApiKey_run E p k (w : World E) :
  fst (setApiKey E p k w) = Return tt /\
  fs (snd (setApiKey E p k w)) = File (Json (mkConfig (Some p) (Some k) (Some true))) /\
  ext (snd (setApiKey E p k w)) = ext w.
Proof.
  destruct w as [f t x]. destruct f as [| |[c|]]; run_config; auto.
Qed.

Lemma getConfig_run E (w : World E) :
  getConfig E w =
    (Return (match fs w with File (Json c) => c | _ => emptyConfig end), w).
Proof.
  destruct w as [f t x]. destruct f as [| |[c|]]; run_config; reflexivity.
Qed.

Lemma isSetupComplete_run E (w : World E) :
  isSetupComplete E w =
    (Return (match fs w with
             | File (Json (mkConfig (Some _) (Some (_ :: _)) (Some true))) => true
             | _ => false
             end), w).
Proof.
  unfold isSetupComplete, bind. rewrite getConfig_run. unfold ret.
  destruct (fs w) as [| |[[[a|] [[|c k]|] [[|]|]]|]]; reflexivity.
Qed.

(** C6. For every provider p and non-empty key k, getConfig after
    setApiKey(p, k) returns a configuration with setupComplete true,
    aiProvider p and apiKey k; and getConfig after clearConfig returns
    the empty configuration. *)
Theorem config_round_trip E p k (w : World E) :
  k <> [] ->
  fst (setApiKey E p k w) = Return tt /\
  (exists c,
     fst (getConfig E (snd (setApiKey E p k w))) = Return c /\
     setupComplete c = Some true /\ aiProvider c = Some p /\ apiKey c = Some k) /\
  fst (isSetupComplete E (snd (setApiKey E p k w))) = Return true /\
  fst (getConfig E (snd (clearConfig E w))) = Return emptyConfig /\
  fst (getConfig E (snd (clearConfig E (snd (setApiKey E p k w))))) = Return emptyConfig.
Proof.
  intros Hk.
  destruct (setApiKey_run E p k w) as (Hret & Hfs & _).
  split; [assumption|]. split; [|split; [|split]].
  - exists (mkConfig (Some p) (Some k) (Some true)).
    rewrite getConfig_run, Hfs. auto.
  - rewrite isSetupComplete_run, Hfs. destruct k; [congruence | reflexivity].
  - rewrite getConfig_run.
    destruct w as [f t x]. destruct f as [| |[c|]]; reflexivity.
  - rewrite getConfig_run.
    destruct (snd (setApiKey E p k w)) as [f t x]. simpl in Hfs. subst f. reflexivity.
Qed.

Lemma config_round_trip_witness :
  fst (getConfig unauthorizedEnv
         (snd (setApiKey unauthorizedEnv openai (lit "sk-test")
                 (start unauthorizedEnv NoDir tt))))
  = Return (mkConfig (Some openai) (Some (lit "sk-test")) (Some true)).
Proof.
  destruct (config_round_trip unauthorizedEnv openai (lit "sk-test")
              (start unauthorizedEnv NoDir tt))
    as (_ & (c & Hget & Hs & Hp & Hk) & _); [discriminate|].
  rewrite Hget. destruct c as [a k s]. simpl in Hs, Hp, Hk. now subst.
Defined.

(** ** Rules for traces *)

Section TraceRules.

Variable E : Externals.

Lemma holds_ret {A} (a : A) Q : Q (Return a) [] -> holds (E := E) (ret a) Q.
Proof. intros H w. exists []. simpl. now rewrite app_nil_r. Qed.

Lemma holds_throw {A} e (Q : Outcome A -> _) : Q (Throw e) [] -> holds (E := E) (throw e) Q.
Proof. intros H w. exists []. simpl. now rewrite app_nil_r. Qed.

Lemma holds_exit {A} c (Q : Outcome A -> _) : Q (Exit c) [] -> holds (E := E) (exit c) Q.
Proof. intros H w. exists []. simpl. now rewrite app_nil_r. Qed.

Lemma holds_weaken {A} (m : M E A) (Q1 Q2 : Outcome A -> list Event -> Prop) :
  holds m Q1 -> (forall o l, Q1 o l -> Q2 o l) -> holds m Q2.
Proof. intros H HQ w. destruct (H w) as (l & Hl & Hq). eauto. Qed.

Lemma holds_bind {A B} (m : M E A) (k : A -> M E B) Q :
  holds m (fun o l1 =>
             match o with
             | Return a => holds (k a) (fun o2 l2 => Q o2 (l1 ++ l2))
             | Throw e => Q (Throw e) l1
             | Exit c => Q (Exit c) l1
             end) ->
  holds (bind m k) Q.
Proof.
  intros H w. unfold bind. destruct (H w) as (l1 & Hl1 & Hq).
  destruct (m w) as [[a|e|c] w1]; simpl in *.
  - destruct (Hq w1) as (l2 & Hl2 & Hq2).
    exists (l1 ++ l2). rewrite Hl2, Hl1, app_assoc. auto.
  - eauto.
  - eauto.
Qed.

Lemma holds_try_catch {A} (m : M E A) (h : JsError -> M E A) Q :
  holds m (fun o l1 =>
             match o with
             | Throw e => holds (h e) (fun o2 l2 => Q o2 (l1 ++ l2))
             | _ => Q o l1
             end) ->
  holds (try_catch m h) Q.
Proof.
  intros H w. unfold try_catch. destruct (H w) as (l1 & Hl1 & Hq).
  destruct (m w) as [[a|e|c] w1]; simpl in *.
  - eauto.
  - destruct (Hq w1) as (l2 & Hl2 & Hq2).
    exists (l1 ++ l2). rewrite Hl2, Hl1, app_assoc. auto.
  - eauto.
Qed.

(** A computation that only reads the world. *)
Lemma holds_reader {A} (m : M E A) Q :
  (forall w, exists a, m w = (Return a, w)) ->
  (forall a, Q (Return a) []) ->
  holds m Q.
Proof.
  intros Hm HQ w. destruct (Hm w) as (a & ->). exists []. simpl.
  now rewrite app_nil_r.
Qed.

Lemma holds_execa c Q :
  (forall out, Q (Return out) [EvExeca c (ExecaOk out)]) ->
  (forall m, Q (Throw (Error m)) [EvExeca c (ExecaFail m)]) ->
  holds (execa E c) Q.
Proof.
  intros Hok Hfail w. unfold execa.
  destruct (run_execa E c (ext w)) as [[out|m] x]; eexists; simpl; eauto.
Qed.

Lemma holds_axios_post q Q :
  (forall d, Q (Return d) [EvPost q (Resolved d)]) ->
  (forall e, Q (Throw e) [EvPost q (Rejected e)]) ->
  holds (axios_post E q) Q.
Proof.
  intros Hok Hfail w. unfold axios_post.
  destruct (run_post E q (ext w)) as [[d|e] x]; eexists; simpl; eauto.
Qed.

Lemma holds_select_provider Q :
  (forall p, Q (Return p) [EvSelectProvider (Answered p)]) ->
  (forall m, Q (Throw (Error m)) [EvSelectProvider (Aborted m)]) ->
  holds (select_provider E) Q.
Proof.
  intros Hok Hfail w. unfold select_provider.
  destruct (ask_provider E (ext w)) as [[p|m] x]; eexists; simpl; eauto.
Qed.

Lemma holds_select_yes_no message Q :
  (forall b, Q (Return b) [EvConfirm message (Answered b)]) ->
  (forall m, Q (Throw (Error m)) [EvConfirm message (Aborted m)]) ->
  holds (select_yes_no E message) Q.
Proof.
  intros Hok Hfail w. unfold select_yes_no.
  destruct (ask_yes_no E message (ext w)) as [[p|m] x]; eexists; simpl; eauto.
Qed.

Lemma holds_password message Q :
  (forall s, Q (Return s) [EvPassword message (Answered s)]) ->
  (forall m, Q (Throw (Error m)) [EvPassword message (Aborted m)]) ->
  holds (password E message) Q.
Proof.
  intros Hok Hfail w. unfold password.
  destruct (ask_password E message (ext w)) as [[p|m] x]; eexists; simpl; eauto.
Qed.

Lemma holds_installGhCli Q :
  Q (Return tt) [EvInstallGhCli None] ->
  (forall e, Q (Throw e) [EvInstallGhCli (Some e)]) ->
  holds (installGhCli E) Q.
Proof.
  intros Hok Hfail w. unfold installGhCli.
  destruct (run_installGhCli E (ext w)) as [[e|] x]; eexists; simpl; eauto.
Qed.

Lemma holds_getConfig Q : (forall c, Q (Return c) []) -> holds (getConfig E) Q.
Proof.
  intros H. apply holds_reader; [|assumption].
  intros w. rewrite getConfig_run. eauto.
Qed.

Lemma holds_isSetupComplete Q : (forall b, Q (Return b) []) -> holds (isSetupComplete E) Q.
Proof.
  intros H. apply holds_reader; [|assumption].
  intros w. rewrite isSetupComplete_run. eauto.
Qed.

(** [setApiKey] returns, having written the file, after creating the
    directory when it was missing. *)
Lemma holds_setApiKey p k Q :
  (forall l, Forall config_event l -> Q (Return tt) l) ->
  holds (setApiKey E p k) Q.
Proof.
  intros H w. destruct w as [f t x].
  destruct f as [| |[c|]]; run_config; eexists;
    (split; [rewrite <- ?app_assoc; reflexivity|]);
    apply H; repeat constructor.
Qed.

End TraceRules.

(** ** Rules for the events of a computation *)

Section OnlyRules.

Variable E : Externals.
Variable P : Event -> Prop.

Lemma only_ret {A} (a : A) : only (E := E) P (ret a).
Proof. apply holds_ret. constructor. Qed.

Lemma only_throw {A} e : only (E := E) P (A := A) (throw e).
Proof. apply holds_throw. constructor. Qed.

Lemma only_exit {A} c : only (E := E) P (A := A) (exit c).
Proof. apply holds_exit. constructor. Qed.

Lemma only_bind {A B} (m : M E A) (k : A -> M E B) :
  only P m -> (forall a, only P (k a)) -> only P (bind m k).
Proof.
  intros Hm Hk. apply holds_bind. eapply holds_weaken; [exact Hm|].
  intros [a|e|c] l1 Hl1; simpl; auto.
  eapply holds_weaken; [apply Hk|]. intros o l2 Hl2. simpl.
  apply Forall_app. auto.
Qed.

Lemma only_try_catch {A} (m : M E A) (h : JsError -> M E A) :
  only P m -> (forall e, only P (h e)) -> only P (try_catch m h).
Proof.
  intros Hm Hh. apply holds_try_catch. eapply holds_weaken; [exact Hm|].
  intros [a|e|c] l1 Hl1; simpl; auto.
  eapply holds_weaken; [apply Hh|]. intros o l2 Hl2. simpl.
  apply Forall_app. auto.
Qed.

Lemma only_execa c : (forall r, P (EvExeca c r)) -> only P (execa E c).
Proof. intros H. apply holds_execa; intros; repeat constructor; apply H. Qed.

Lemma only_axios_post q : (forall r, P (EvPost q r)) -> only P (axios_post E q).
Proof. intros H. apply holds_axios_post; intros; repeat constructor; apply H. Qed.

Lemma only_select_provider : (forall a, P (EvSelectProvider a)) -> only P (select_provider E).
Proof. intros H. apply holds_select_provider; intros; repeat constructor; apply H. Qed.

Lemma only_select_yes_no q : (forall a, P (EvConfirm q a)) -> only P (select_yes_no E q).
Proof. intros H. apply holds_select_yes_no; intros; repeat constructor; apply H. Qed.

Lemma only_password q : (forall a, P (EvPassword q a)) -> only P (password E q).
Proof. intros H. apply holds_password; intros; repeat constructor; apply H. Qed.

Lemma only_installGhCli : (forall r, P (EvInstallGhCli r)) -> only P (installGhCli E).
Proof. intros H. apply holds_installGhCli; intros; repeat constructor; apply H. Qed.

Lemma only_getConfig : only P (getConfig E).
Proof. apply holds_getConfig. constructor. Qed.

Lemma only_isSetupComplete : only P (isSetupComplete E).
Proof. apply holds_isSetupComplete. constructor. Qed.

Lemma only_setApiKey p k :
  (forall ev, config_event ev -> P ev) -> only P (setApiKey E p k).
Proof.
  intros H. apply holds_setApiKey. intros l Hl.
  eapply Forall_impl; [|exact Hl]. exact H.
Qed.

End OnlyRules.

(** One step through a command whose events are to satisfy a predicate. *)
Ltac only_step :=
  match goal with
  | |- only _ (ret _) => apply only_ret
  | |- only _ (throw _) => apply only_throw
  | |- only _ (exit _) => apply only_exit
  | |- only _ (bind _ _) => apply only_bind; [|intro]
  | |- only _ (try_catch _ _) => apply only_try_catch; [|intro]
  | |- only _ (execa _ _) => apply only_execa
  | |- only _ (axios_post _ _) => apply only_axios_post
  | |- only _ (select_provider _) => apply only_select_provider
  | |- only _ (select_yes_no _ _) => apply only_select_yes_no
  | |- only _ (password _ _) => apply only_password
  | |- only _ (installGhCli _) => apply only_installGhCli
  | |- only _ (getConfig _) => apply only_getConfig
  | |- only _ (isSetupComplete _) => apply only_isSetupComplete
  | |- only _ (setApiKey _ _ _) => apply only_setApiKey
  | |- only _ (if ?b then _ else _) => destruct b
  | |- only _ (match ?x with _ => _ end) => destruct x
  | |- only _ ?m =>
      let h := lazymatch m with
               | ?f _ _ _ _ _ => f
               | ?f _ _ _ _ => f
               | ?f _ _ _ => f
               | ?f _ _ => f
               | ?f _ => f
               end in
      unfold h
  end.

(** Side conditions: the event at hand is of the right kind. *)
Ltac event_ok :=
  intros;
  cbv [config_event message_event no_commit_no_offer no_remote_no_create] in *;
  try tauto;
  try (match goal with
       | ev : Event |- _ => destruct ev; tauto
       end);
  repeat split;
  try reflexivity;
  try (intros;
       let H := fresh in
       intro H; vm_compute in H; discriminate H).

Ltac only_auto := repeat only_step; event_ok.

Section Pieces.

Variable E : Externals.
Variable folderName : jsstring.

Lemma reconfigure_config_events : only config_event (reconfigure E).
Proof. only_auto. Qed.

Lemma commit_push_events message :
  only (fun ev => exists c r, ev = EvExeca c r /\ c <> git_diff_cached /\ c <> git_remote
                              /\ c <> gh_repo_create folderName)
       (commit E message ;; push E).
Proof.
  repeat only_step; intros; do 2 eexists; (split; [reflexivity|]); event_ok.
Qed.

End Pieces.

(** One step through a command, towards a postcondition on its outcome
    and its events. *)
Ltac hstep :=
  match goal with
  | |- holds (ret _) _ => apply holds_ret
  | |- holds (throw _) _ => apply holds_throw
  | |- holds (exit _) _ => apply holds_exit
  | |- holds (bind _ _) _ => apply holds_bind
  | |- holds (try_catch _ _) _ => apply holds_try_catch
  | |- holds (execa _ _) _ => apply holds_execa; intros
  | |- holds (axios_post _ _) _ => apply holds_axios_post; intros
  | |- holds (select_provider _) _ => apply holds_select_provider; intros
  | |- holds (select_yes_no _ _) _ => apply holds_select_yes_no; intros
  | |- holds (password _ _) _ => apply holds_password; intros
  | |- holds (installGhCli _) _ => apply holds_installGhCli; intros
  | |- holds (getConfig _) _ => apply holds_getConfig; intros
  | |- holds (isSetupComplete _) _ => apply holds_isSetupComplete; intros
  | |- holds (setApiKey _ _ _) _ => apply holds_setApiKey; intros
  | |- holds (if ?b then _ else _) _ => destruct b
  | |- holds (match ?x with _ => _ end) _ => destruct x
  | |- holds ?m _ =>
      let h := lazymatch m with
               | ?f _ _ _ _ _ => f
               | ?f _ _ _ _ => f
               | ?f _ _ _ => f
               | ?f _ _ => f
               | ?f _ => f
               end in
      unfold h
  end; cbv beta iota.

Lemma not_in_config_events l ev :
  Forall config_event l -> ~ config_event ev -> ~ In ev l.
Proof. intros Hl Hev Hin. apply Hev. exact (proj1 (Forall_forall _ _) Hl ev Hin). Qed.

Lemma ends_with_of_rev {A} (l rest : list A) a b :
  rev l = a :: b :: rest -> l = rev rest ++ [b; a].
Proof.
  intros H. apply (f_equal (@rev A)) in H. rewrite rev_involutive in H.
  rewrite H. simpl. now rewrite <- app_assoc.
Qed.

Section MessageStep.

Variable E : Externals.

(** The client posts once, and returns or throws. *)
Lemma generateCommitMessage_posts_once diff p key :
  holds (generateCommitMessage E diff p key)
        (fun o l => (exists q r, l = [EvPost q r]) /\ forall c, o <> Exit c).
Proof.
  destruct p; repeat hstep;
    (split; [simpl; eauto | discriminate]).
Qed.

End MessageStep.

Lemma declined_not_config : ~ config_event declined.
Proof. exact (fun H => H). Qed.

Lemma config_is_message ev : config_event ev -> message_event ev.
Proof. destruct ev; simpl; tauto. Qed.

(** Closes a leaf of the analysis of "Step 5". *)
Ltac message_leaf :=
  unfold message_step_post; split;
  [ repeat (apply Forall_app; split); repeat constructor;
    try assumption;
    try (eapply Forall_impl; [exact config_is_message | eassumption]);
    try reflexivity
  | let Hin := fresh "Hin" in
    intros Hin;
    repeat (apply in_app_or in Hin; destruct Hin as [Hin|Hin]);
    try (exfalso; eapply not_in_config_events;
         [eassumption | exact declined_not_config | exact Hin]);
    try (simpl in Hin; destruct Hin as [Hin|[]]; try discriminate Hin);
    try contradiction;
    try (split; [reflexivity|];
         do 3 eexists; apply ends_with_of_rev;
         rewrite ?rev_app_distr; simpl; reflexivity) ].

Section MessageStepPost.

Variable E : Externals.

Lemma reconfigure_then {B} (k : AiProvider * jsstring -> M E B) :
  (forall l pk, Forall config_event l ->
                holds (k pk) (fun o2 l2 => message_step_post o2 (l ++ l2))) ->
  holds (bind (reconfigure E) k) message_step_post.
Proof.
  intros Hk. apply holds_bind.
  eapply holds_weaken; [apply reconfigure_config_events|].
  intros [pk|e|c] l Hl; cbv beta iota; [now apply Hk | |];
    message_leaf.
Qed.

End MessageStepPost.

Section MessageStepSpec.

Variable E : Externals.

Lemma generate_or_reconfigure_post diff p key l0 :
  Forall message_event l0 -> ~ In declined l0 ->
  holds (generate_or_reconfigure E diff p key)
        (fun o l => message_step_post o (l0 ++ l)).
Proof.
  intros Hl0 Hnot. unfold generate_or_reconfigure.
  apply holds_try_catch.
  eapply holds_weaken; [apply generateCommitMessage_posts_once|].
  intros [s|e|c] l ((q & r & ->) & Hexit); cbv beta iota.
  - message_leaf.
  - unfold confirm. repeat hstep; message_leaf.
  - now destruct (Hexit c).
Qed.

Lemma ai_commit_message_post : holds (ai_commit_message E) message_step_post.
Proof.
  unfold ai_commit_message, getAiProvider, getApiKey. do 8 hstep. cbn [app].
  match goal with
  | |- holds (bind _ ?k) _ =>
      assert (Hgo : forall l pk, Forall config_event l ->
                 holds (k pk) (fun o2 l2 => message_step_post o2 (l ++ l2)))
  end.
  { intros l pk Hl. unfold getStagedDiff. do 3 hstep; [hstep|].
    - destruct out as [|ch out]; [hstep; message_leaf|].
      eapply holds_weaken; [apply generate_or_reconfigure_post|].
      + instantiate (1 := l ++ [EvExeca git_diff_cached (ExecaOk (ch :: out))]).
        apply Forall_app; split; [|repeat constructor].
        eapply Forall_impl; [exact config_is_message | eassumption].
      + intros Hin. apply in_app_or in Hin. destruct Hin as [Hin|[Hin|[]]].
        * now apply (not_in_config_events _ _ Hl declined_not_config).
        * discriminate Hin.
      + intros o l2 H. cbv beta in *. rewrite <- app_assoc in H. exact H.
    - message_leaf. }
  destruct (aiProvider c) as [p|]; [destruct (apiKey c0) as [[|ch k]|]|].
  - apply reconfigure_then. intros; now apply Hgo.
  - do 2 hstep. apply (Hgo [] (p, ch :: k)). constructor.
  - apply reconfigure_then. intros; now apply Hgo.
  - apply reconfigure_then. intros; now apply Hgo.
Qed.

Lemma push_commit_message_post message :
  truthy_str message = false ->
  holds (push_commit_message E message) message_step_post.
Proof.
  intros Hm. unfold push_commit_message.
  destruct message as [[|c m]|]; try discriminate Hm; apply ai_commit_message_post.
Qed.

End MessageStepSpec.

(** ** The push command *)

Section PushFlow.

Variable E : Externals.
Variable folderName : jsstring.

(** A first step whose events are all of a kind [P] can be skipped
    when the postcondition holds of traces of that kind and survives
    a prefix of that kind. *)
Lemma holds_after_prefix {A B} (P : Event -> Prop) (m : M E A) (k : A -> M E B)
    (Q : Outcome B -> list Event -> Prop) :
  only P m ->
  (forall o l, Forall P l -> Q o l) ->
  (forall o l1 l2, Forall P l1 -> Q o l2 -> Q o (l1 ++ l2)) ->
  (forall a, holds (k a) Q) ->
  holds (bind m k) Q.
Proof.
  intros Hm Hquiet Hprefix Hk. apply holds_bind.
  eapply holds_weaken; [exact Hm|].
  intros [a|e|c] l1 Hl1; cbv beta iota; auto.
  eapply holds_weaken; [apply Hk|]. intros o l2 HQ. now apply Hprefix.
Qed.

Lemma declined_is_offer : ~ no_commit_no_offer declined.
Proof. intros H. now apply H. Qed.

Lemma after_decline_quiet {A} (o : Outcome A) l :
  Forall no_commit_no_offer l -> after_decline o l.
Proof.
  intros Hl Hin. destruct declined_is_offer.
  exact (proj1 (Forall_forall _ _) Hl _ Hin).
Qed.

Lemma after_decline_prefix {A} (o : Outcome A) l1 l2 :
  Forall no_commit_no_offer l1 -> after_decline o l2 -> after_decline o (l1 ++ l2).
Proof.
  intros Hl1 H2 Hin.
  assert (Hin2 : In declined l2).
  { apply in_app_or in Hin. destruct Hin as [Hin|Hin]; [|assumption].
    destruct declined_is_offer. exact (proj1 (Forall_forall _ _) Hl1 _ Hin). }
  destruct (H2 Hin2) as (Ho & Hc & (b & out & a & -> & Ha) & (b' & q & r & Hb')).
  split; [assumption|]. split; [|split].
  - intros m r0 Hm. apply in_app_or in Hm. destruct Hm as [Hm|Hm].
    + exact (proj1 (Forall_forall _ _) Hl1 _ Hm m eq_refl).
    + exact (Hc m r0 Hm).
  - exists (l1 ++ b), out, a. now rewrite <- app_assoc.
  - exists (l1 ++ b'), q, r. now rewrite Hb', <- app_assoc.
Qed.

(** From staging on: once the user has declined, the command has left
    with status 1, after [git add .] and [git diff --cached] only. *)
Lemma push_tail_after_decline message :
  truthy_str message = false ->
  holds (stageAll E ;;
         commitMessage <- push_commit_message E message ;;
         commit E commitMessage ;;
         push E)
        after_decline.
Proof.
  intros Hm. unfold stageAll. do 3 hstep; [do 2 hstep|].
  - cbn [app]. eapply holds_weaken; [apply (push_commit_message_post E _ Hm)|].
    intros [s|e|c] l (Hl & Hdecl); cbv beta iota.
    + eapply holds_weaken; [apply (commit_push_events E folderName)|].
      intros o l2 Hl2 Hin. exfalso.
      destruct Hin as [Hin|Hin]; [discriminate Hin|].
      apply in_app_or in Hin. destruct Hin as [Hin|Hin].
      * now destruct (Hdecl Hin).
      * destruct (proj1 (Forall_forall _ _) Hl2 _ Hin) as (c & r & Heq & _).
        discriminate Heq.
    + intros [Hin|Hin]; [discriminate Hin|]. now destruct (Hdecl Hin).
    + intros [Hin|Hin]; [discriminate Hin|].
      destruct (Hdecl Hin) as (Hexit & before & q & r & Hbefore).
      split; [now injection Hexit as ->|]. split; [|split].
      * intros m r' [Hc|Hc]; [vm_compute in Hc; discriminate Hc|].
        pose proof (proj1 (Forall_forall _ _) Hl _ Hc) as Hev.
        simpl in Hev. vm_compute in Hev. discriminate Hev.
      * exists [], out, l. split; [reflexivity|].
        eapply Forall_impl; [|exact Hl].
        intros ev Hev c' r' ->. exact Hev.
      * exists (EvExeca git_add (ExecaOk out) :: before), q, r.
        now rewrite Hbefore.
  - intros [Hin|[]]. discriminate Hin.
Qed.

Lemma push_body_after_decline message :
  truthy_str message = false ->
  holds (push_setup_gate E message ;;
         push_check_cli E ;;
         needsApiReconfigure <- push_check_auth E ;;
         push_check_ai E message needsApiReconfigure ;;
         push_check_repo E ;;
         push_check_remote E folderName ;;
         push_check_changes E ;;
         stageAll E ;;
         commitMessage <- push_commit_message E message ;;
         commit E commitMessage ;;
         push E)
        after_decline.
Proof.
  intros Hm.
  do 7 (apply (holds_after_prefix no_commit_no_offer);
          [ solve [only_auto]
          | intros; now apply after_decline_quiet
          | intros; now apply after_decline_prefix
          | intros ]).
  now apply push_tail_after_decline.
Qed.

End PushFlow.

Lemma push_action_after_decline E folderName message :
  truthy_str message = false ->
  holds (push_action E folderName message) after_decline.
Proof.
  intros Hm. unfold push_action. apply holds_try_catch.
  eapply holds_weaken; [apply (push_body_after_decline E folderName _ Hm)|].
  intros [[]|e|c] l H; cbv beta iota; try exact H.
  hstep. intros Hin. rewrite app_nil_r in Hin. now destruct (H Hin).
Qed.

(** C3. In the push flow without a literal message, once
    generateCommitMessage has failed and the user has declined the offer
    to reconfigure (the only one made, and made only in the handler of
    that failure), the command exits with code 1, no git commit has been
    run, and after the successful git add nothing but the staged diff
    has been asked of git: the index is left staged.  The offer is the
    last event of the run and follows the POST directly. *)
Theorem declined_reconfiguration_exits_without_commit
    E folderName message (f : ConfigFs) (x : Ext E) :
  truthy_str message = false ->
  In declined (trace (snd (push_action E folderName message (start E f x)))) ->
  let run := push_action E folderName message (start E f x) in
  exit_code (fst run) = 1%Z /\
  fst run = Exit 1 /\
  (forall m r, ~ In (EvExeca (git_commit m) r) (trace (snd run))) /\
  (exists before out after,
     trace (snd run) = before ++ EvExeca git_add (ExecaOk out) :: after /\
     Forall (fun ev => forall c r, ev = EvExeca c r -> c = git_diff_cached) after) /\
  (exists before q r, trace (snd run) = before ++ [EvPost q r; declined]).
Proof.
  intros Hm Hin run. subst run.
  destruct (push_action_after_decline E folderName message Hm (start E f x))
    as (l & Hl & Hpost).
  simpl in Hl. rewrite Hl in *.
  destruct (Hpost Hin) as (Hexit & Hrest).
  rewrite Hexit. auto.
Qed.

Lemma declined_reconfiguration_exits_without_commit_witness :
  exit_code (fst (push_action unauthorizedEnv (lit "my-project") None
                    (start unauthorizedEnv configured tt))) = 1%Z.
Proof.
  refine (proj1 (declined_reconfiguration_exits_without_commit
                   unauthorizedEnv (lit "my-project") None configured tt _ _)).
  - reflexivity.
  - vm_compute. do 8 right. left. reflexivity.
Defined.

(** ** The remote check *)

Section RemoteCheck.

Variable E : Externals.
Variable folderName : jsstring.

Lemma creation_skipped_quiet {A} (o : Outcome A) l :
  Forall (no_remote_no_create folderName) l -> creation_skipped folderName o l.
Proof.
  intros Hl out Hin. destruct (proj1 (Forall_forall _ _) Hl _ Hin) as (H & _).
  now destruct H.
Qed.

Lemma creation_skipped_prefix {A} (o : Outcome A) l1 l2 :
  Forall (no_remote_no_create folderName) l1 ->
  creation_skipped folderName o l2 ->
  creation_skipped folderName o (l1 ++ l2).
Proof.
  intros Hl1 H2 out Hin Hlisted r Hc.
  apply in_app_or in Hin. destruct Hin as [Hin|Hin].
  - destruct (proj1 (Forall_forall _ _) Hl1 _ Hin) as (H & _). now destruct H.
  - apply in_app_or in Hc. destruct Hc as [Hc|Hc].
    + destruct (proj1 (Forall_forall _ _) Hl1 _ Hc) as (_ & H). now destruct H.
    + exact (H2 out Hin Hlisted r Hc).
Qed.

(** After the remote check nothing lists the remotes or creates a
    repository. *)
Lemma push_rest_no_remote_no_create message :
  only (no_remote_no_create folderName)
       (push_check_changes E ;;
        stageAll E ;;
        commitMessage <- push_commit_message E message ;;
        commit E commitMessage ;;
        push E).
Proof. only_auto. Qed.

(** Closes a leaf of the analysis of the remote check: [Hin] places a
    successful [git remote] in the trace and [Hc] a [gh repo create]. *)
Ltac remote_leaf Hl2 Hin Hc :=
  repeat match type of Hin with
         | In _ (_ ++ _) => apply in_app_or in Hin; destruct Hin as [Hin|Hin]
         | In _ (_ :: _) => destruct Hin as [Hin|Hin]
         | In _ [] => destruct Hin
         end;
  try (destruct (proj1 (Forall_forall _ _) Hl2 _ Hin) as (Hin' & _);
       now destruct Hin');
  try discriminate Hin;
  repeat match type of Hc with
         | In _ (_ ++ _) => apply in_app_or in Hc; destruct Hc as [Hc|Hc]
         | In _ (_ :: _) => destruct Hc as [Hc|Hc]
         | In _ [] => destruct Hc
         end;
  try (destruct (proj1 (Forall_forall _ _) Hl2 _ Hc) as (_ & Hc');
       now destruct Hc');
  try (vm_compute in Hc; discriminate Hc);
  try (injection Hin as Hin; congruence).

Lemma push_from_remote_check message :
  holds (push_check_remote E folderName ;;
         push_check_changes E ;;
         stageAll E ;;
         commitMessage <- push_commit_message E message ;;
         commit E commitMessage ;;
         push E)
        (creation_skipped folderName).
Proof.
  pose proof (push_rest_no_remote_no_create message) as Hrest.
  unfold push_check_remote, hasRemote, createGitHubRepo.
  do 5 hstep.
  - hstep. destruct (remoteListed out) eqn:Hlisted; cbn [negb].
    + hstep. eapply holds_weaken; [exact Hrest|].
      intros o l2 Hl2 out' Hin Hl' r Hc. remote_leaf Hl2 Hin Hc.
    + do 2 hstep; [hstep; eapply holds_weaken; [exact Hrest|]; intros o l2 Hl2|];
        intros out' Hin Hl' r Hc; remote_leaf Hl2 Hin Hc.
  - hstep. cbn [negb].
    do 2 hstep; [hstep; eapply holds_weaken; [exact Hrest|]; intros o l2 Hl2|];
      intros out' Hin Hl' r Hc; remote_leaf Hl2 Hin Hc.
Qed.

Lemma push_action_creation_skipped message :
  holds (push_action E folderName message) (creation_skipped folderName).
Proof.
  unfold push_action. apply holds_try_catch.
  eapply (holds_weaken E _ (creation_skipped folderName)).
  - do 5 (apply (holds_after_prefix E (no_remote_no_create folderName));
          [ solve [only_auto]
          | intros; now apply creation_skipped_quiet
          | intros; now apply creation_skipped_prefix
          | intros ]).
    apply push_from_remote_check.
  - intros [[]|e|c] l H; cbv beta iota; try exact H.
    hstep. now rewrite app_nil_r.
Qed.

End RemoteCheck.

(** C9. hasRemote returns true exactly when the output of git remote
    contains origin as a substring, anywhere: it is true for a sole remote
    named origin-backup or my-origin, and the push flow then runs no
    gh repo create. *)
Theorem hasRemote_is_substring_test E folderName :
  (forall (w : World E) out x,
     run_execa E git_remote (ext w) = (ExecaOk out, x) ->
     fst (hasRemote E w) = Return (remoteListed out) /\
     (fst (hasRemote E w) = Return true <-> exists a b, out = a ++ lit "origin" ++ b)) /\
  (forall (w : World E) m x,
     run_execa E git_remote (ext w) = (ExecaFail m, x) ->
     fst (hasRemote E w) = Return false) /\
  remoteListed (lit "origin-backup") = true /\
  remoteListed (lit "my-origin") = true /\
  (forall message f x out,
     In (EvExeca git_remote (ExecaOk out))
        (trace (snd (push_action E folderName message (start E f x)))) ->
     remoteListed out = true ->
     forall r, ~ In (EvExeca (gh_repo_create folderName) r)
                    (trace (snd (push_action E folderName message (start E f x))))).
Proof.
  split; [|split; [|split; [|split]]].
  - intros w out x H. rewrite (hasRemote_run _ _ _ _ H). split; [reflexivity|].
    unfold remoteListed. rewrite <- includes_true. split; congruence.
  - intros w m x H. now rewrite (hasRemote_run _ _ _ _ H).
  - reflexivity.
  - reflexivity.
  - intros message f x out Hin Hlisted r.
    destruct (push_action_creation_skipped E folderName message (start E f x))
      as (l & Hl & Hskip).
    simpl in Hl. rewrite Hl in *. exact (Hskip out Hin Hlisted r).
Qed.

Lemma hasRemote_is_substring_test_witness :
  fst (hasRemote backupRemoteEnv (start backupRemoteEnv configured tt)) = Return true /\
  forall r,
    ~ In (EvExeca (gh_repo_create (lit "my-project")) r)
         (trace (snd (push_action backupRemoteEnv (lit "my-project") None
                        (start backupRemoteEnv configured tt)))).
Proof.
  destruct (hasRemote_is_substring_test backupRemoteEnv (lit "my-project"))
    as (Hresult & _ & _ & _ & Hskip).
  split.
  - destruct (Hresult (start backupRemoteEnv configured tt) (lit "origin-backup") tt)
      as (Heq & _); [reflexivity|].
    rewrite Heq. reflexivity.
  - apply (Hskip None configured tt (lit "origin-backup")).
    + vm_compute. do 3 right. left. reflexivity.
    + reflexivity.
Defined.

(** ** The configuration step of push *)

Section FreshLogin.

Variable E : Externals.
Variable folderName : jsstring.

Lemma bind_run {A B} (m : M E A) (k : A -> M E B) w a w1 :
  m w = (Return a, w1) -> bind m k w = k a w1.
Proof. unfold bind. now intros ->. Qed.

Lemma setup_gate_passes message (w : World E) :
  fst (isSetupComplete E w) = Return true ->
  push_setup_gate E message w = (Return tt, w).
Proof.
  unfold push_setup_gate, bind. rewrite isSetupComplete_run. simpl.
  now intros [= ->].
Qed.

Lemma setup_gate_stops message (w : World E) :
  fst (isSetupComplete E w) = Return false ->
  truthy_str message = false ->
  push_setup_gate E message w = (Exit 1, w).
Proof.
  unfold push_setup_gate, bind. rewrite isSetupComplete_run. simpl.
  now intros [= ->] ->.
Qed.

Lemma check_cli_installed (w : World E) out x :
  run_execa E gh_version (ext w) = (ExecaOk out, x) ->
  push_check_cli E w =
    (Return tt, mkWorld E (fs w) (trace w ++ [EvExeca gh_version (ExecaOk out)]) x).
Proof.
  intros H. unfold push_check_cli, isGhInstalled, try_catch, bind.
  now rewrite (execa_run _ _ _ _ _ H).
Qed.

Lemma check_auth_fresh_login (w : World E) m x out x' :
  run_execa E gh_auth_status (ext w) = (ExecaFail m, x) ->
  run_execa E gh_auth_login x = (ExecaOk out, x') ->
  push_check_auth E w =
    (Return true,
     mkWorld E (fs w)
             (trace w ++ [EvExeca gh_auth_status (ExecaFail m);
                          EvExeca gh_auth_login (ExecaOk out)])
             x').
Proof.
  intros H1 H2. unfold push_check_auth, isGhAuthenticated, loginGh, try_catch, bind.
  rewrite (execa_run _ _ _ _ _ H1). simpl.
  unfold execa. simpl. rewrite H2. simpl. now rewrite <- app_assoc.
Qed.

Lemma check_ai_reconfigures message (w : World E) p x raw x' :
  truthy_str message = false ->
  fs w <> NoDir ->
  ask_provider E (ext w) = (Answered p, x) ->
  ask_password E (lit "Enter your " ++ providerNames p ++ lit " API key:") x
    = (Answered raw, x') ->
  push_check_ai E message true w =
    (Return tt,
     mkWorld E (File (Json (mkConfig (Some p) (Some (trim raw)) (Some true))))
             (trace w ++
                [EvSelectProvider (Answered p);
                 EvPassword (lit "Enter your " ++ providerNames p ++ lit " API key:")
                            (Answered raw);
                 EvWriteConfig (mkConfig (Some p) (Some (trim raw)) (Some true))])
             x').
Proof.
  intros Hm Hdir Hp Hk. unfold push_check_ai. rewrite Hm. cbn [negb].
  unfold bind at 1. rewrite isSetupComplete_run. rewrite orb_true_r.
  unfold reconfigure, selectAiProvider, inputApiKey, bind, select_provider, password.
  rewrite Hp. cbn [answer ext fs trace ret]. 
  rewrite Hk. cbn [answer ret].
  destruct w as [f t x0]. cbn [fs trace ext] in *.
  destruct f as [| |[c|]]; [congruence| | |]; run_config;
    now rewrite <- !app_assoc.
Qed.

Lemma push_from_repo_check message :
  holds (push_check_repo E ;;
         push_check_remote E folderName ;;
         push_check_changes E ;;
         stageAll E ;;
         commitMessage <- push_commit_message E message ;;
         commit E commitMessage ;;
         push E)
        (fun _ l => exists r rest, l = EvExeca git_rev_parse r :: rest).
Proof.
  assert (Hrest : only (fun _ => True)
                       (push_check_remote E folderName ;;
                        push_check_changes E ;;
                        stageAll E ;;
                        commitMessage <- push_commit_message E message ;;
                        commit E commitMessage ;;
                        push E)) by only_auto.
  unfold push_check_repo, isGitRepo, initGitRepo.
  do 5 hstep.
  - hstep. cbn [negb]. hstep.
    eapply holds_weaken; [exact Hrest|]. intros. cbn [app]. eauto.
  - hstep. cbn [negb]. do 2 hstep.
    + hstep. eapply holds_weaken; [exact Hrest|]. intros. cbn [app]. eauto.
    + cbn [app]. eauto.
Qed.

Lemma push_action_trace message (w : World E) o w' :
  (push_setup_gate E message ;;
   push_check_cli E ;;
   needsApiReconfigure <- push_check_auth E ;;
   push_check_ai E message needsApiReconfigure ;;
   push_check_repo E ;;
   push_check_remote E folderName ;;
   push_check_changes E ;;
   stageAll E ;;
   commitMessage <- push_commit_message E message ;;
   commit E commitMessage ;;
   push E) w = (o, w') ->
  trace (snd (push_action E folderName message w)) = trace w' /\
  exit_code (fst (push_action E folderName message w)) = exit_code o.
Proof.
  intros H. unfold push_action, try_catch. rewrite H. now destruct o.
Qed.

End FreshLogin.

(** C2, as the code has it.  In the push flow without a literal message,
    when setup is complete and a fresh GitHub login has just occurred
    (gh auth status failed and gh auth login succeeded), the handler has
    the provider and the API key selected again, saves them at once and
    goes on with the check of the git repository. *)
Theorem fresh_login_forces_reconfiguration
    E folderName message (f : ConfigFs) (x0 x1 x2 x3 x4 x5 : Ext E)
    out1 m2 out3 p raw :
  truthy_str message = false ->
  fst (isSetupComplete E (start E f x0)) = Return true ->
  run_execa E gh_version x0 = (ExecaOk out1, x1) ->
  run_execa E gh_auth_status x1 = (ExecaFail m2, x2) ->
  run_execa E gh_auth_login x2 = (ExecaOk out3, x3) ->
  ask_provider E x3 = (Answered p, x4) ->
  ask_password E (lit "Enter your " ++ providerNames p ++ lit " API key:") x4
    = (Answered raw, x5) ->
  exists r rest,
    trace (snd (push_action E folderName message (start E f x0))) =
      [EvExeca gh_version (ExecaOk out1);
       EvExeca gh_auth_status (ExecaFail m2);
       EvExeca gh_auth_login (ExecaOk out3);
       EvSelectProvider (Answered p);
       EvPassword (lit "Enter your " ++ providerNames p ++ lit " API key:") (Answered raw);
       EvWriteConfig (mkConfig (Some p) (Some (trim raw)) (Some true));
       EvExeca git_rev_parse r] ++ rest.
Proof.
  intros Hm Hsetup Hv Hs Hl Hp Hk.
  assert (Hdir : f <> NoDir).
  { intros ->. rewrite isSetupComplete_run in Hsetup. discriminate Hsetup. }
  destruct ((push_setup_gate E message ;;
             push_check_cli E ;;
             needsApiReconfigure <- push_check_auth E ;;
             push_check_ai E message needsApiReconfigure ;;
             push_check_repo E ;;
             push_check_remote E folderName ;;
             push_check_changes E ;;
             stageAll E ;;
             commitMessage <- push_commit_message E message ;;
             commit E commitMessage ;;
             push E) (start E f x0)) as [o w'] eqn:Hbody.
  destruct (push_action_trace E folderName message _ _ _ Hbody) as (-> & _).
  erewrite bind_run in Hbody by (apply setup_gate_passes; exact Hsetup).
  cbv beta in Hbody.
  erewrite bind_run in Hbody by (apply check_cli_installed; exact Hv).
  cbv beta in Hbody.
  erewrite bind_run in Hbody
    by (apply check_auth_fresh_login with (1 := Hs) (2 := Hl)).
  cbv beta in Hbody.
  erewrite bind_run in Hbody
    by (apply check_ai_reconfigures with (1 := Hm) (3 := Hp) (4 := Hk); exact Hdir).
  cbv beta in Hbody.
  match type of Hbody with
  | _ ?w = _ => destruct (push_from_repo_check E folderName message w)
                  as (l & Htrace & r & rest & ->)
  end.
  rewrite Hbody in Htrace. exists r, rest. exact Htrace.
Qed.

Lemma fresh_login_forces_reconfiguration_witness :
  exists r rest,
    trace (snd (push_action freshLoginEnv (lit "my-project") None
                  (start freshLoginEnv configured tt))) =
      [EvExeca gh_version (ExecaOk []);
       EvExeca gh_auth_status (ExecaFail (lit "not logged in"));
       EvExeca gh_auth_login (ExecaOk []);
       EvSelectProvider (Answered openai);
       EvPassword (lit "Enter your " ++ providerNames openai ++ lit " API key:")
                  (Answered (lit " sk-test "));
       EvWriteConfig (mkConfig (Some openai) (Some (trim (lit " sk-test "))) (Some true));
       EvExeca git_rev_parse r] ++ rest.
Proof.
  apply (fresh_login_forces_reconfiguration freshLoginEnv (lit "my-project") None
           configured tt tt tt tt tt tt); reflexivity.
Defined.

(** Without a literal message and without a complete setup the handler
    leaves at its first check. *)
Lemma push_without_setup_exits E folderName message (w : World E) :
  truthy_str message = false ->
  fst (isSetupComplete E w) = Return false ->
  push_action E folderName message w = (Exit 1, w).
Proof.
  intros Hm Hs. unfold push_action, try_catch, bind at 1.
  now rewrite (setup_gate_stops E message w Hs Hm).
Qed.

(** C2, as stated, fails: with no literal message and no configuration
    on disk, a user who would answer every prompt is asked nothing;
    nothing is saved and the command exits with code 1. *)
Lemma push_without_setup_aborts :
  fst (isSetupComplete readyEnv (start readyEnv NoFile tt)) = Return false /\
  fst (push_action readyEnv (lit "my-project") None (start readyEnv NoFile tt)) = Exit 1 /\
  trace (snd (push_action readyEnv (lit "my-project") None (start readyEnv NoFile tt))) = [] /\
  fs (snd (push_action readyEnv (lit "my-project") None (start readyEnv NoFile tt))) = NoFile /\
  (forall a, ~ In (EvSelectProvider a)
                  (trace (snd (push_action readyEnv (lit "my-project") None
                                 (start readyEnv NoFile tt))))) /\
  (forall c, ~ In (EvWriteConfig c)
                  (trace (snd (push_action readyEnv (lit "my-project") None
                                 (start readyEnv NoFile tt))))).
Proof.
  rewrite (push_without_setup_exits readyEnv (lit "my-project") None
             (start readyEnv NoFile tt) eq_refl eq_refl).
  repeat split; intros ? [].
Qed.

(* ================================================================== *)
(** * Further properties *)
(* ================================================================== *)

(** ** Blank output *)

Lemma trimStart_nil_iff s :
  trimStart s = [] <-> Forall (fun c => isTrimmed c = true) s.
Proof.
  induction s as [|c s IH]; simpl.
  - split; auto.
  - destruct (isTrimmed c) eqn:Hc.
    + rewrite IH. split; [now constructor | now inversion 1].
    + split; [discriminate|]. inversion 1; congruence.
Qed.

Lemma trim_nil_iff s :
  trim s = [] <-> Forall (fun c => isTrimmed c = true) s.
Proof.
  rewrite <- trimStart_nil_iff. unfold trim, trimEnd. split.
  - intros H. apply (f_equal (@rev N)) in H. rewrite rev_involutive in H.
    simpl in H. apply trimStart_nil_iff in H.
    destruct (trimStart s) as [|c t] eqn:Ht; [reflexivity|].
    apply trimStart_head in Ht.
    assert (Hc : In c (rev (c :: t))) by (apply in_rev; rewrite rev_involutive; now left).
    rewrite (proj1 (Forall_forall _ _) H c Hc) in Ht. discriminate.
  - intros ->. reflexivity.
Qed.

Lemma nonBlank_false_iff out :
  nonBlank out = false <-> Forall (fun c => isTrimmed c = true) out.
Proof.
  rewrite <- trim_nil_iff. unfold nonBlank.
  destruct (trim out) as [|c t]; cbn [List.length Nat.ltb Nat.leb]; split;
    intros H; (reflexivity || discriminate H).
Qed.

(** X1. hasChanges and hasStagedChanges answer false exactly when the
    output of git consists of white space and line terminators only (the
    empty output included), and true as soon as it holds one other
    character; a failing git is not turned into an answer but thrown. *)
Theorem change_checks_test_for_non_blank_output E (w : World E) :
  (forall out x,
     run_execa E git_status (ext w) = (ExecaOk out, x) ->
     (fst (hasChanges E w) = Return false <-> Forall (fun c => isTrimmed c = true) out) /\
     (fst (hasChanges E w) = Return true <-> exists c, In c out /\ isTrimmed c = false)) /\
  (forall out x,
     run_execa E git_diff_cached_names (ext w) = (ExecaOk out, x) ->
     (fst (hasStagedChanges E w) = Return false <-> Forall (fun c => isTrimmed c = true) out) /\
     (fst (hasStagedChanges E w) = Return true <-> exists c, In c out /\ isTrimmed c = false)) /\
  (forall m x,
     run_execa E git_status (ext w) = (ExecaFail m, x) ->
     fst (hasChanges E w) = Throw (Error m)) /\
  (forall m x,
     run_execa E git_diff_cached_names (ext w) = (ExecaFail m, x) ->
     fst (hasStagedChanges E w) = Throw (Error m)).
Proof.
  assert (Hboth : forall out b,
            (Return (A := bool) (nonBlank out) = Return b) <-> nonBlank out = b).
  { intros out b. split; congruence. }
  assert (Htrue : forall out,
            nonBlank out = true <-> exists c, In c out /\ isTrimmed c = false).
  { intros out. split.
    - intros H. destruct (Forall_Exists_dec (fun c => isTrimmed c = true)
                            (fun c => bool_dec (isTrimmed c) true) out) as [Hall|Hex].
      + apply nonBlank_false_iff in Hall. congruence.
      + apply Exists_exists in Hex. destruct Hex as (c & Hin & Hc).
        exists c. split; [assumption|]. now destruct (isTrimmed c).
    - intros (c & Hin & Hc). destruct (nonBlank out) eqn:Hn; [reflexivity|].
      apply nonBlank_false_iff in Hn.
      rewrite (proj1 (Forall_forall _ _) Hn c Hin) in Hc. discriminate. }
  repeat split; intros.
  all: unfold hasChanges, hasStagedChanges, bind in *;
       try rewrite (execa_run _ _ _ _ _ H) in *; simpl in *.
  all: try (apply nonBlank_false_iff; congruence).
  all: try (f_equal; now apply nonBlank_false_iff).
  all: try (apply Htrue; congruence).
  all: try (f_equal; now apply Htrue).
  all: try reflexivity.
Qed.

Lemma change_checks_test_for_non_blank_output_witness :
  fst (hasChanges readyEnv (start readyEnv NoFile tt)) = Return true.
Proof.
  destruct (change_checks_test_for_non_blank_output readyEnv (start readyEnv NoFile tt))
    as (Hstatus & _).
  destruct (Hstatus (lit " M index.ts") tt eq_refl) as (_ & Htrue).
  apply Htrue. exists 77%N. split; [vm_compute; tauto | reflexivity].
Defined.

(** ** Remote URLs in general *)

Lemma git_suffix_end_after_segment t :
  match_git_suffix_end (t ++ lit ".git") = true -> t = [].
Proof.
  unfold match_git_suffix_end.
  destruct (strip_prefix (lit ".git") (t ++ lit ".git")) as [[|c r]|] eqn:Hp.
  - intros _. apply strip_prefix_Some in Hp.
    apply (f_equal (@List.length N)) in Hp. rewrite !length_app in Hp.
    simpl in Hp. destruct t; [reflexivity | simpl in Hp; lia].
  - destruct t; simpl; [|discriminate]. intros _. reflexivity.
  - destruct t; simpl; [|discriminate]. intros _. reflexivity.
Qed.

Lemma lazy_segment_before_suffix seg :
  seg <> [] ->
  Forall (fun c => isLineTerminator c = false) seg ->
  match_lazy_segment (seg ++ lit ".git") = Some seg.
Proof.
  induction seg as [|c t IH]; [congruence|]. intros _ Hlt.
  inversion Hlt as [|? ? Hc Ht]; subst.
  change ((c :: t) ++ lit ".git") with (c :: (t ++ lit ".git")).
  cbn [match_lazy_segment]. rewrite Hc.
  destruct (match_git_suffix_end (t ++ lit ".git")) eqn:Hend.
  - apply git_suffix_end_after_segment in Hend. now subst.
  - destruct t as [|d t]; [discriminate Hend|].
    rewrite IH; [reflexivity | discriminate | assumption].
Qed.

Lemma lazy_segment_plain seg :
  seg <> [] ->
  Forall (fun c => isLineTerminator c = false) seg ->
  includes seg (lit ".git") = false ->
  match_lazy_segment seg = Some seg.
Proof.
  induction seg as [|c t IH]; [congruence|]. intros _ Hlt Hinc.
  inversion Hlt as [|? ? Hc Ht]; subst.
  cbn [match_lazy_segment]. rewrite Hc.
  assert (Hinc' : includes t (lit ".git") = false).
  { cbn [includes] in Hinc.
    destruct (strip_prefix (lit ".git") (c :: t)); [discriminate|assumption]. }
  destruct t as [|d t]; [reflexivity|].
  assert (Hend : match_git_suffix_end (d :: t) = false).
  { unfold match_git_suffix_end.
    destruct (strip_prefix (lit ".git") (d :: t)) as [[|e r]|] eqn:Hp; try reflexivity.
    apply strip_prefix_Some in Hp.
    assert (Hyes : includes (d :: t) (lit ".git") = true)
      by (apply includes_true; exists [], []; now rewrite Hp).
    congruence. }
  rewrite Hend, IH; [reflexivity | discriminate | assumption | assumption].
Qed.

Lemma repoMatch_skip c s :
  match_here (c :: s) = None -> repoMatch (c :: s) = repoMatch s.
Proof. intros H. cbn [repoMatch]. now rewrite H. Qed.

Lemma repoMatch_at_host sep rest :
  isColonOrSlash sep = true ->
  repoMatch (lit "github.com" ++ sep :: rest) =
    match match_lazy_segment rest with
    | Some captured => Some captured
    | None => repoMatch (lit "ithub.com" ++ sep :: rest)
    end.
Proof.
  intros Hsep.
  change (lit "github.com" ++ sep :: rest)
    with (103%N :: (lit "ithub.com" ++ sep :: rest)) at 1.
  cbn [repoMatch].
  change (103%N :: (lit "ithub.com" ++ sep :: rest))
    with (lit "github.com" ++ sep :: rest).
  unfold match_here. now rewrite strip_prefix_app, Hsep.
Qed.

Lemma repoMatch_https rest :
  repoMatch (lit "https://github.com/" ++ rest) =
    match match_lazy_segment rest with
    | Some captured => Some captured
    | None => repoMatch (lit "ithub.com" ++ 47%N :: rest)
    end.
Proof.
  change (lit "https://github.com/" ++ rest)
    with (104 :: 116 :: 116 :: 112 :: 115 :: 58 :: 47 :: 47
              :: (lit "github.com" ++ 47 :: rest))%N.
  do 8 (rewrite repoMatch_skip by (vm_compute; reflexivity)).
  now apply repoMatch_at_host.
Qed.

Lemma repoMatch_ssh rest :
  repoMatch (lit "git@github.com:" ++ rest) =
    match match_lazy_segment rest with
    | Some captured => Some captured
    | None => repoMatch (lit "ithub.com" ++ 58%N :: rest)
    end.
Proof.
  change (lit "git@github.com:" ++ rest)
    with (103 :: 105 :: 116 :: 64 :: (lit "github.com" ++ 58 :: rest))%N.
  do 4 (rewrite repoMatch_skip by (vm_compute; reflexivity)).
  now apply repoMatch_at_host.
Qed.

(** X2. For every owner/repo segment that is not empty and holds no line
    terminator, the HTTPS and the SSH remote URL ending in .git are
    matched with that segment as the capture; when the segment does not
    contain .git, the URLs without the .git ending are matched alike and
    the delete command works on exactly that segment in all four forms. *)
Theorem github_remote_urls_yield_their_segment (seg : jsstring) :
  seg <> [] ->
  Forall (fun c => isLineTerminator c = false) seg ->
  repoMatch (lit "https://github.com/" ++ seg ++ lit ".git") = Some seg /\
  repoMatch (lit "git@github.com:" ++ seg ++ lit ".git") = Some seg /\
  (includes seg (lit ".git") = false ->
   repoMatch (lit "https://github.com/" ++ seg) = Some seg /\
   repoMatch (lit "git@github.com:" ++ seg) = Some seg /\
   deleteRepoName (lit "https://github.com/" ++ seg ++ lit ".git") = Some seg /\
   deleteRepoName (lit "git@github.com:" ++ seg ++ lit ".git") = Some seg /\
   deleteRepoName (lit "https://github.com/" ++ seg) = Some seg /\
   deleteRepoName (lit "git@github.com:" ++ seg) = Some seg).
Proof.
  intros Hne Hlt.
  assert (H1 : repoMatch (lit "https://github.com/" ++ seg ++ lit ".git") = Some seg)
    by (now rewrite repoMatch_https, lazy_segment_before_suffix).
  assert (H2 : repoMatch (lit "git@github.com:" ++ seg ++ lit ".git") = Some seg)
    by (now rewrite repoMatch_ssh, lazy_segment_before_suffix).
  split; [assumption|]. split; [assumption|].
  intros Hinc.
  assert (H3 : repoMatch (lit "https://github.com/" ++ seg) = Some seg)
    by (now rewrite repoMatch_https, lazy_segment_plain).
  assert (H4 : repoMatch (lit "git@github.com:" ++ seg) = Some seg)
    by (now rewrite repoMatch_ssh, lazy_segment_plain).
  unfold deleteRepoName, repoNameOf. rewrite H1, H2, H3, H4. simpl option_map.
  rewrite (includes_false_replace _ _ _ Hinc). repeat split; reflexivity.
Qed.

Lemma github_remote_urls_yield_their_segment_witness :
  repoMatch (lit "git@github.com:" ++ lit "octo-org/hello_world" ++ lit ".git")
    = Some (lit "octo-org/hello_world").
Proof.
  refine (proj1 (proj2 (github_remote_urls_yield_their_segment (lit "octo-org/hello_world") _ _))).
  - discriminate.
  - vm_compute. repeat constructor.
Defined.

Lemma match_here_needs_host s :
  includes s (lit "github.com") = false -> match_here s = None.
Proof.
  intros H. unfold match_here.
  destruct (strip_prefix (lit "github.com") s) as [r|] eqn:Hp; [|reflexivity].
  destruct s; cbn [includes] in H; rewrite Hp in H; discriminate.
Qed.

(** A URL that does not mention github.com is not matched. *)
Lemma repoMatch_needs_host s :
  includes s (lit "github.com") = false -> repoMatch s = None.
Proof.
  induction s as [|c s IH]; intros H.
  - reflexivity.
  - cbn [repoMatch]. rewrite (match_here_needs_host _ H).
    apply IH. cbn [includes] in H.
    destruct (strip_prefix (lit "github.com") (c :: s)); [discriminate|assumption].
Qed.

(** ** More on the AI provider client *)

Ltac at_documented_path H :=
  rewrite opt_chain_at_path;
  unfold geminiPath, chatPath, anthropicPath; unfold documentedPath in H;
  rewrite H.

(** X3. A reply whose text is not empty but holds white space only is
    accepted by every provider client: generateCommitMessage returns the
    empty string instead of failing with the empty-response error. *)
Theorem blank_reply_gives_empty_message E diff p key (w : World E) d s :
  (forall q, fst (run_post E q (ext w)) = Resolved d) ->
  at_path d (documentedPath p) = Some (JString s) ->
  s <> [] ->
  Forall (fun c => isTrimmed c = true) s ->
  fst (generateCommitMessage E diff p key w) = Return [].
Proof.
  intros Hpost Hpath Hs Hblank.
  apply trim_nil_iff in Hblank.
  destruct p; run_generate Hpost; at_documented_path Hpath;
    (destruct s; [congruence|]); simpl; now rewrite Hblank.
Qed.

Lemma blank_reply_gives_empty_message_witness :
  fst (generateCommitMessage blankReplyEnv (lit "diff") openai (lit "key")
         (start blankReplyEnv NoFile tt))
  = Return [].
Proof.
  refine (blank_reply_gives_empty_message blankReplyEnv
            (lit "diff") openai (lit "key") (start blankReplyEnv NoFile tt) _
            (lit "  " ++ [10%N]) _ _ _ _).
  - intros q. reflexivity.
  - reflexivity.
  - discriminate.
  - vm_compute. repeat constructor.
Defined.

(** X4. When the value at the documented path is truthy but not a
    string (a number other than zero, true, an array, an object), the
    call of trim on it fails and generateCommitMessage throws that error
    as it is: the failure is neither the empty-response error nor one of
    the provider's own messages. *)
Theorem non_string_text_fails_in_trim E diff p key (w : World E) d v :
  (forall q, fst (run_post E q (ext w)) = Resolved d) ->
  at_path d (documentedPath p) = Some v ->
  truthy v = true ->
  (forall s, v <> JString s) ->
  fst (generateCommitMessage E diff p key w)
    = Throw (Error (lit "text.trim is not a function")) /\
  classify (Error (lit "text.trim is not a function")) = ProviderError.
Proof.
  intros Hpost Hpath Hv Hns. split; [|reflexivity].
  destruct p; run_generate Hpost; at_documented_path Hpath;
    rewrite Hv; simpl;
    (destruct v; try reflexivity; try discriminate Hv; now destruct (Hns s)).
Qed.

Lemma non_string_text_fails_in_trim_witness :
  fst (generateCommitMessage numberReplyEnv (lit "diff") anthropic (lit "key")
         (start numberReplyEnv NoFile tt))
  = Throw (Error (lit "text.trim is not a function")).
Proof.
  refine (proj1 (non_string_text_fails_in_trim numberReplyEnv
                   (lit "diff") anthropic (lit "key") (start numberReplyEnv NoFile tt) _
                   (JNumber 42) _ _ _ _)).
  - intros q. reflexivity.
  - reflexivity.
  - reflexivity.
  - discriminate.
Defined.

(** X5. A failed POST that is not one of the recognised statuses gives
    the catch-all error of the provider: Gemini puts the HTTP status in
    it (the axios message when there is no response), the other three
    always the axios message; an exception that is not an Axios error is
    thrown on unchanged. *)
Theorem other_failures_of_the_post E diff p key (w : World E) :
  (forall status message,
     (forall q, fst (run_post E q (ext w)) = Rejected (AxiosError status message)) ->
     status <> Some 401%N ->
     (p = gemini -> status <> Some 403%N /\ status <> Some 429%N) ->
     let detail := match p, status with
                   | gemini, Some s => if (s =? 0)%N then message else of_N s
                   | _, _ => message
                   end in
     fst (generateCommitMessage E diff p key w) = Throw (Error (apiErrorPrefix p ++ detail)) /\
     classify (Error (apiErrorPrefix p ++ detail)) = ProviderError) /\
  (forall message,
     (forall q, fst (run_post E q (ext w)) = Rejected (Error message)) ->
     fst (generateCommitMessage E diff p key w) = Throw (Error message)).
Proof.
  split.
  - intros status message Hpost H401 Hgem detail. subst detail.
    assert (H1 : status_is status 401 = false).
    { destruct status as [s|]; [|reflexivity]. simpl.
      destruct (N.eqb_spec s 401); congruence. }
    split; [|now destruct p].
    destruct p; run_generate Hpost; simpl; rewrite H1; try reflexivity.
    destruct (Hgem eq_refl) as (H403 & H429).
    assert (H3 : status_is status 403 = false).
    { destruct status as [s|]; [|reflexivity]. simpl.
      destruct (N.eqb_spec s 403); congruence. }
    assert (H9 : status_is status 429 = false).
    { destruct status as [s|]; [|reflexivity]. simpl.
      destruct (N.eqb_spec s 429); congruence. }
    rewrite H3, H9. reflexivity.
  - intros message Hpost. destruct p; run_generate Hpost; reflexivity.
Qed.

Lemma other_failures_of_the_post_witness :
  fst (generateCommitMessage serverErrorEnv (lit "diff") gemini (lit "key")
         (start serverErrorEnv NoFile tt))
  = Throw (Error (lit "Gemini API error: 500")).
Proof.
  destruct (other_failures_of_the_post serverErrorEnv
              (lit "diff") gemini (lit "key") (start serverErrorEnv NoFile tt))
    as (Haxios & _).
  refine (proj1 (Haxios (Some 500%N) (lit "Request failed") _ _ _)).
  - intros q. reflexivity.
  - discriminate.
  - intros _. split; discriminate.
Defined.

(** X6. Every call of generateCommitMessage sends exactly one POST, the
    request of the chosen provider built from the diff and the key,
    whatever the answer: there is no second attempt, the configuration
    on disk is not touched, and the process is not ended. *)
Theorem generateCommitMessage_posts_exactly_once E diff p key (w : World E) :
  exists r x,
    run_post E (requestFor p diff key) (ext w) = (r, x) /\
    snd (generateCommitMessage E diff p key w)
      = mkWorld E (fs w) (trace w ++ [EvPost (requestFor p diff key) r]) x /\
    (forall c, fst (generateCommitMessage E diff p key w) <> Exit c).
Proof.
  destruct (run_post E (requestFor p diff key) (ext w)) as [r x] eqn:Hrun.
  exists r, x. split; [reflexivity|].
  destruct p; simpl in Hrun;
    unfold generateCommitMessage, generateWithGemini, generateWithOpenAI,
      generateWithAnthropic, generateWithGitHub, try_catch, bind, axios_post;
    rewrite Hrun;
    (destruct r as [d|[status message|message]]; cbn [fst snd];
     [ match goal with
       | |- context [truthy ?t] => destruct (truthy t); cbn [negb]; [destruct t|]
       end
     | repeat match goal with
              | |- context [if ?b then _ else _] => destruct b
              end
     | ]);
    (split; [reflexivity | discriminate]).
Qed.

(** ** More on the configuration store *)

Lemma clearConfig_run E (w : World E) :
  fst (clearConfig E w) = Return (match fs w with File _ => true | _ => false end) /\
  fs (snd (clearConfig E w)) = match fs w with NoDir => NoDir | _ => NoFile end /\
  ext (snd (clearConfig E w)) = ext w.
Proof.
  destruct w as [f t x]. destruct f as [| |c]; run_config; repeat split; reflexivity.
Qed.


(** X8. setApiKey replaces what was stored: after two calls only the
    provider and the key of the second remain.  The first call creates
    the directory if and only if it was missing; the second only writes
    the file. *)
Theorem setApiKey_last_write_wins E p1 k1 p2 k2 (w : World E) :
  let w1 := snd (setApiKey E p1 k1 w) in
  let w2 := snd (setApiKey E p2 k2 w1) in
  fst (setApiKey E p2 k2 w1) = Return tt /\
  fst (getConfig E w2) = Return (mkConfig (Some p2) (Some k2) (Some true)) /\
  trace w1 = trace w ++ match fs w with
                        | NoDir => [EvMkdir; EvWriteConfig (mkConfig (Some p1) (Some k1) (Some true))]
                        | _ => [EvWriteConfig (mkConfig (Some p1) (Some k1) (Some true))]
                        end /\
  trace w2 = trace w1 ++ [EvWriteConfig (mkConfig (Some p2) (Some k2) (Some true))].
Proof.
  destruct w as [f t x]. destruct f as [| |[c|]]; run_config;
    rewrite <- ?app_assoc; repeat split; reflexivity.
Qed.

(** X9. isSetupComplete is true exactly when the file parses and holds a
    provider, a key that is not empty and setupComplete true.  A file
    that is not JSON counts as no configuration, and setApiKey with the
    empty key stores setupComplete true while isSetupComplete stays
    false. *)
Theorem isSetupComplete_needs_all_three E (w : World E) :
  (fst (isSetupComplete E w) = Return true <->
   exists p c k, fs w = File (Json (mkConfig (Some p) (Some (c :: k)) (Some true)))) /\
  (fs w = File NotJson ->
   fst (isSetupComplete E w) = Return false /\
   fst (getApiKey E w) = Return None /\
   fst (getAiProvider E w) = Return None) /\
  (forall p,
     fst (getConfig E (snd (setApiKey E p [] w)))
       = Return (mkConfig (Some p) (Some []) (Some true)) /\
     fst (isSetupComplete E (snd (setApiKey E p [] w))) = Return false).
Proof.
  split; [|split].
  - rewrite isSetupComplete_run. simpl. split.
    + destruct (fs w) as [| |[[[p|] [[|c k]|] [[|]|]]|]]; try discriminate.
      intros _. now exists p, c, k.
    + intros (p & c & k & ->). reflexivity.
  - intros Hfs. unfold getApiKey, getAiProvider, bind.
    rewrite isSetupComplete_run, getConfig_run, Hfs. auto.
  - intros p. destruct (setApiKey_run E p [] w) as (_ & Hfs & _).
    rewrite getConfig_run, isSetupComplete_run, Hfs. auto.
Qed.

Lemma isSetupComplete_needs_all_three_witness :
  fst (isSetupComplete readyEnv (start readyEnv (File NotJson) tt)) = Return false.
Proof.
  destruct (isSetupComplete_needs_all_three readyEnv (start readyEnv (File NotJson) tt))
    as (_ & Hbad & _).
  exact (proj1 (Hbad eq_refl)).
Defined.

(** ** The config and logout commands *)

Ltac run_prompts :=
  unfold selectAiProvider, inputApiKey, confirm, select_provider, select_yes_no, password,
    getAiProvider, bind, try_catch, exit, answer.

(** X10. The config command saves the selected provider and the trimmed
    key and ends normally when the user answers both prompts; when the
    user leaves either prompt it exits with code 1 and the configuration
    on disk is what it was. *)
Theorem config_command_saves_or_leaves_untouched E (w : World E) :
  (forall p x raw x',
     ask_provider E (ext w) = (Answered p, x) ->
     ask_password E (lit "Enter your " ++ providerNames p ++ lit " API key:") x
       = (Answered raw, x') ->
     fst (config_action E w) = Return tt /\
     fs (snd (config_action E w))
       = File (Json (mkConfig (Some p) (Some (trim raw)) (Some true)))) /\
  (forall m x,
     ask_provider E (ext w) = (Aborted m, x) ->
     fst (config_action E w) = Exit 1 /\
     fs (snd (config_action E w)) = fs w /\
     trace (snd (config_action E w)) = trace w ++ [EvSelectProvider (Aborted m)]) /\
  (forall p x m x',
     ask_provider E (ext w) = (Answered p, x) ->
     ask_password E (lit "Enter your " ++ providerNames p ++ lit " API key:") x
       = (Aborted m, x') ->
     fst (config_action E w) = Exit 1 /\
     fs (snd (config_action E w)) = fs w).
Proof.
  destruct w as [f t x0]. cbn [ext fs trace].
  split; [|split].
  - intros p x raw x' Hp Hk. unfold config_action. run_prompts.
    rewrite getConfig_run. cbn [ext fs trace ret]. rewrite Hp. cbn [ext fs trace ret].
    rewrite Hk. cbn [ret].
    match goal with
    | |- context [setApiKey E p ?k ?w1] =>
        destruct (setApiKey_run E p k w1) as (Hret & Hfs & _);
        destruct (setApiKey E p k w1) as [o w2]
    end.
    simpl in Hret, Hfs. subst o. auto.
  - intros m x Hp. unfold config_action. run_prompts.
    rewrite getConfig_run. cbn [ext fs trace ret]. rewrite Hp. auto.
  - intros p x m x' Hp Hk. unfold config_action. run_prompts.
    rewrite getConfig_run. cbn [ext fs trace ret]. rewrite Hp. cbn [ext fs trace ret].
    rewrite Hk. auto.
Qed.

Lemma config_command_saves_or_leaves_untouched_witness :
  fs (snd (config_action readyEnv (start readyEnv NoDir tt)))
    = File (Json (mkConfig (Some openai) (Some (lit "sk-test")) (Some true))).
Proof.
  destruct (config_command_saves_or_leaves_untouched readyEnv (start readyEnv NoDir tt))
    as (Hsave & _).
  exact (proj2 (Hsave openai tt (lit " sk-test ") tt eq_refl eq_refl)).
Defined.

(** X11. The logout command without --all asks nothing, removes the
    configuration file and ends normally; with --all and the answer No
    it does the same and does not log out of GitHub.  After either, a
    push without a literal message exits with code 1 at once. *)
Theorem logout_clears_configuration E (logoutGh : M E unit) (w : World E) :
  (logout_action E logoutGh false w = (Return tt, snd (clearConfig E w))) /\
  (forall x,
     ask_yes_no E logoutQuestion (ext w) = (Answered false, x) ->
     logout_action E logoutGh true w
       = (Return tt,
          mkWorld E (fs (snd (clearConfig E w)))
                  (trace (snd (clearConfig E w)) ++ [EvConfirm logoutQuestion (Answered false)])
                  x)) /\
  (forall all folderName message,
     fst (logout_action E logoutGh all w) = Return tt ->
     (forall w1, fs (snd (logoutGh w1)) = fs w1) ->
     truthy_str message = false ->
     let w' := snd (logout_action E logoutGh all w) in
     push_action E folderName message w' = (Exit 1, w')).
Proof.
  destruct (clearConfig_run E w) as (Hret & Hfs & Hext).
  split; [|split].
  - unfold logout_action, try_catch, bind.
    destruct (clearConfig E w) as [o w1]. simpl in Hret. now subst o.
  - intros x Hask. unfold logout_action. run_prompts.
    destruct (clearConfig E w) as [o w1]. simpl in Hret, Hext, Hfs |- *. subst o.
    rewrite Hext, Hask. reflexivity.
  - intros all folderName message Hok Hkeep Hm w'.
    apply push_without_setup_exits; [assumption|].
    rewrite isSetupComplete_run.
    assert (Hnofile : forall c, fs w' <> File c).
    { subst w'. revert Hok. unfold logout_action. run_prompts.
      destruct (clearConfig E w) as [o w1]. simpl in Hret, Hext, Hfs |- *. subst o.
      destruct all.
      - destruct (ask_yes_no E logoutQuestion (ext w1)) as [[[|]|m] x]; cbn [fst snd ret fs].
        + specialize (Hkeep (mkWorld E (fs w1)
                               (trace w1 ++ [EvConfirm logoutQuestion (Answered true)]) x)).
          destruct (logoutGh _) as [[[]|e|c] w2]; cbn [fst snd ret fs] in *;
            intros _ c'; rewrite Hkeep, Hfs; now destruct (fs w).
        + intros _ c'. rewrite Hfs. now destruct (fs w).
        + discriminate.
      - cbn [fst snd ret fs]. intros _ c'. rewrite Hfs. now destruct (fs w). }
    destruct (fs w') as [| |c]; [reflexivity | reflexivity | now destruct (Hnofile c)].
Qed.

Lemma logout_clears_configuration_witness :
  push_action readyEnv (lit "my-project") None
    (snd (logout_action readyEnv (ret tt) false (start readyEnv configured tt)))
  = (Exit 1, snd (logout_action readyEnv (ret tt) false (start readyEnv configured tt))).
Proof.
  destruct (logout_clears_configuration readyEnv (ret tt) (start readyEnv configured tt))
    as (_ & _ & Hpush).
  apply (Hpush false (lit "my-project") None); reflexivity.
Defined.

(** ** Exit statuses *)

Section EndsRules.

Variable E : Externals.
Variable R : Z -> Prop.

Lemma ends_never {A} (m : M E A) :
  holds m (fun o _ => forall c, o <> Exit c) -> ends_in R m.
Proof.
  intros H. eapply holds_weaken; [exact H|].
  intros o l Hne c Hc. now destruct (Hne c).
Qed.
















End EndsRules.




(** ** More on the push command *)

(** Side conditions on single events, for the further kinds of event. *)
Ltac event_fits :=
  intros;
  cbv [literal_only before_changes no_status not_a_post is_post] in *;
  try exact I; try reflexivity;
  try (match goal with
       | H : config_event ?ev |- _ =>
           destruct ev; cbn [config_event] in H; try contradiction;
           try exact I; try reflexivity
       end);
  repeat split; intros;
  try (let H := fresh in intro H; vm_compute in H; discriminate H).

Section PushMore.

Variable E : Externals.
Variable folderName : jsstring.

(** A first step can be skipped when the postcondition holds of every
    run that throws or exits and survives any prefix. *)
Lemma holds_skip {A B} (P : Event -> Prop) (m : M E A) (k : A -> M E B)
    (Q : Outcome B -> list Event -> Prop) :
  only P m ->
  (forall e l, Forall P l -> Q (Throw e) l) ->
  (forall c l, Forall P l -> Q (Exit c) l) ->
  (forall o l1 l2, Forall P l1 -> Q o l2 -> Q o (l1 ++ l2)) ->
  (forall a, holds (k a) Q) ->
  holds (bind m k) Q.
Proof.
  intros Hm Hthrow Hexit Hprefix Hk. apply holds_bind.
  eapply holds_weaken; [exact Hm|].
  intros [a|e|c] l1 Hl1; cbv beta iota; auto.
  eapply holds_weaken; [apply Hk|]. intros o l2 HQ. now apply Hprefix.
Qed.

Lemma only_bind_ret {A B} (P : Event -> Prop) (a : A) (k : A -> M E B) :
  only P (k a) -> only P (bind (ret a) k).
Proof. intros H w. exact (H w). Qed.

Lemma push_with_literal_only c m :
  only (literal_only (c :: m)) (push_action E folderName (Some (c :: m))).
Proof.
  unfold push_action, push_setup_gate, push_check_ai, push_commit_message.
  cbn [truthy_str negb andb].
  repeat (first [ match goal with
                  | |- only _ (bind (ret _) _) => apply only_bind_ret
                  end
                | only_step ]);
    intros; cbv [literal_only]; try exact I;
    intros m' Heq; try (vm_compute in Heq; discriminate Heq).
  unfold git_commit, git in Heq. now injection Heq as <-.
Qed.

Lemma setup_gate_open message (w : World E) :
  truthy_str message = true -> push_setup_gate E message w = (Return tt, w).
Proof.
  intros Hm. unfold push_setup_gate, bind. rewrite isSetupComplete_run, Hm.
  cbn [negb]. now rewrite andb_false_r.
Qed.

Lemma push_from_cli_check message :
  holds (push_check_cli E ;;
         needsApiReconfigure <- push_check_auth E ;;
         push_check_ai E message needsApiReconfigure ;;
         push_check_repo E ;;
         push_check_remote E folderName ;;
         push_check_changes E ;;
         stageAll E ;;
         commitMessage <- push_commit_message E message ;;
         commit E commitMessage ;;
         push E)
        (fun _ l => exists r rest, l = EvExeca gh_version r :: rest).
Proof.
  assert (Hrest : only (fun _ => True)
                       (needsApiReconfigure <- push_check_auth E ;;
                        push_check_ai E message needsApiReconfigure ;;
                        push_check_repo E ;;
                        push_check_remote E folderName ;;
                        push_check_changes E ;;
                        stageAll E ;;
                        commitMessage <- push_commit_message E message ;;
                        commit E commitMessage ;;
                        push E)) by only_auto.
  assert (Hcli : holds (push_check_cli E)
                   (fun _ l => exists r rest, l = EvExeca gh_version r :: rest)).
  { unfold push_check_cli, isGhInstalled. do 4 hstep.
    - hstep. cbn [negb]. hstep. cbn [app]. eauto.
    - hstep. cbn [negb].
      match goal with
      | |- holds ?m _ =>
          assert (Hm : only (fun _ : Event => True) m) by only_auto;
          eapply holds_weaken; [exact Hm|]
      end.
      intros. cbn [app]. eauto. }
  apply holds_bind. eapply holds_weaken; [exact Hcli|].
  intros [[]|e|c] l (r & rest & ->); cbv beta iota; eauto.
  eapply holds_weaken; [exact Hrest|]. intros. cbn [app]. eauto.
Qed.

End PushMore.

(** X13. With a literal message (-m) that is not empty, push sends no
    request to a provider, asks for no provider and no key, and does not
    write the configuration; every git commit it runs carries exactly
    the literal message.  It does not stop at the setup check either:
    its first step is gh --version, whatever the configuration. *)
Theorem literal_message_bypasses_the_provider
    E folderName c m (f : ConfigFs) (x : Ext E) :
  let l := trace (snd (push_action E folderName (Some (c :: m)) (start E f x))) in
  (forall q r, ~ In (EvPost q r) l) /\
  (forall a, ~ In (EvSelectProvider a) l) /\
  (forall q a, ~ In (EvPassword q a) l) /\
  (forall cfg, ~ In (EvWriteConfig cfg) l) /\
  (forall m' r, In (EvExeca (git_commit m') r) l -> m' = c :: m) /\
  (exists r rest, l = EvExeca gh_version r :: rest).
Proof.
  intros l.
  destruct (push_with_literal_only E folderName c m (start E f x)) as (l' & Hl & Hall).
  simpl in Hl. fold l in Hl.
  assert (H : forall ev, In ev l -> literal_only (c :: m) ev)
    by (rewrite Hl; exact (proj1 (Forall_forall _ _) Hall)).
  repeat split.
  - intros q r Hin. exact (H _ Hin).
  - intros a Hin. exact (H _ Hin).
  - intros q a Hin. exact (H _ Hin).
  - intros cfg Hin. exact (H _ Hin).
  - intros m' r Hin. exact (H _ Hin m' eq_refl).
  - destruct ((push_setup_gate E (Some (c :: m)) ;;
               push_check_cli E ;;
               needsApiReconfigure <- push_check_auth E ;;
               push_check_ai E (Some (c :: m)) needsApiReconfigure ;;
               push_check_repo E ;;
               push_check_remote E folderName ;;
               push_check_changes E ;;
               stageAll E ;;
               commitMessage <- push_commit_message E (Some (c :: m)) ;;
               commit E commitMessage ;;
               push E) (start E f x)) as [o w'] eqn:Hbody.
    destruct (push_action_trace E folderName _ _ _ _ Hbody) as (Htrace & _).
    erewrite bind_run in Hbody by (apply setup_gate_open; reflexivity).
    cbv beta in Hbody.
    destruct (push_from_cli_check E folderName (Some (c :: m)) (start E f x))
      as (l0 & Hl0 & r & rest & ->).
    rewrite Hbody in Hl0. simpl in Hl0.
    exists r, rest. unfold l. now rewrite Htrace.
Qed.

Section PushOutcomes.

Variable E : Externals.
Variable folderName : jsstring.

Lemma before_changes_no_status l out :
  Forall before_changes l -> ~ In (EvExeca git_status (ExecaOk out)) l.
Proof.
  intros Hl Hin. destruct (proj1 (Forall_forall _ _) Hl _ Hin) as (H & _). now apply H.
Qed.

Lemma no_status_not_in l r :
  Forall no_status l -> ~ In (EvExeca git_status r) l.
Proof.
  intros Hl Hin. now apply (proj1 (Forall_forall _ _) Hl _ Hin).
Qed.

Lemma nothing_to_commit_prefix {A} (o : Outcome A) l1 l2 :
  Forall before_changes l1 -> nothing_to_commit o l2 -> nothing_to_commit o (l1 ++ l2).
Proof.
  intros Hl1 H2 out Hin Hblank.
  apply in_app_or in Hin. destruct Hin as [Hin|Hin];
    [now destruct (before_changes_no_status _ _ Hl1 Hin)|].
  destruct (H2 out Hin Hblank) as (Ho & (before & ->) & Hnone).
  split; [assumption|]. split.
  - exists (l1 ++ before). now rewrite app_assoc.
  - intros c r Hc. apply in_app_or in Hc. destruct Hc as [Hc|Hc].
    + destruct (proj1 (Forall_forall _ _) Hl1 _ Hc) as (_ & Ha & Hb & Hp). auto.
    + now apply (Hnone c r).
Qed.

Lemma push_after_changes_no_status message :
  only no_status
       (stageAll E ;;
        commitMessage <- push_commit_message E message ;;
        commit E commitMessage ;;
        push E).
Proof.
  repeat only_step; event_fits.
Qed.

Lemma push_from_changes_check message :
  holds (push_check_changes E ;;
         stageAll E ;;
         commitMessage <- push_commit_message E message ;;
         commit E commitMessage ;;
         push E)
        nothing_to_commit.
Proof.
  unfold push_check_changes, hasChanges. do 4 hstep.
  - hstep. destruct (nonBlank out) eqn:Hout; cbn [negb].
    + hstep. eapply holds_weaken; [apply push_after_changes_no_status|].
      intros o l Hl out' Hin Hblank. exfalso.
      cbn [app] in Hin. destruct Hin as [Hin|Hin].
      * injection Hin as <-. congruence.
      * now apply (no_status_not_in _ _ Hl) in Hin.
    + hstep. intros out' [Hin|[]] _. injection Hin as <-.
      split; [reflexivity|]. split; [now exists []|].
      intros c r [Hc|[]]. injection Hc as <- _.
      repeat split; intros; intro H; vm_compute in H; discriminate H.
  - intros out' [Hin|[]]. discriminate Hin.
Qed.

Lemma push_action_nothing_to_commit message :
  holds (push_action E folderName message) nothing_to_commit.
Proof.
  unfold push_action. apply holds_try_catch.
  eapply (holds_weaken E _ nothing_to_commit).
  - do 6 (apply (holds_after_prefix E before_changes);
          [ solve [repeat only_step; event_fits]
          | intros ? ? Hl out Hin; now destruct (before_changes_no_status _ _ Hl Hin)
          | intros; now apply nothing_to_commit_prefix
          | intros ]).
    apply push_from_changes_check.
  - intros [[]|e|c] l H; cbv beta iota; try exact H.
    hstep. intros out Hin Hblank. rewrite app_nil_r in Hin.
    now destruct (H out Hin Hblank).
Qed.

(** After the commit message is known: commit, ask for the branch, push. *)
Lemma commit_and_push_end m message :
  (forall c t, message = Some (c :: t) -> m = c :: t) ->
  holds (commit E m ;; push E) (pushed_at_the_end message).
Proof.
  intros Hm. unfold commit, push, getCurrentBranch.
  repeat hstep; try discriminate.
  intros _. exists [], m, out, out0, out1. split; [reflexivity | assumption].
Qed.

Lemma pushed_at_the_end_prefix message o l1 l2 :
  pushed_at_the_end message o l2 -> pushed_at_the_end message o (l1 ++ l2).
Proof.
  intros H Ho. destruct (H Ho) as (before & m & o1 & o2 & o3 & -> & Hm).
  exists (l1 ++ before), m, o1, o2, o3. split; [now rewrite app_assoc | assumption].
Qed.

Lemma commit_message_is_literal message :
  holds (push_commit_message E message)
        (fun o _ => forall s, o = Return s -> forall c t, message = Some (c :: t) -> s = c :: t).
Proof.
  destruct message as [[|c t]|]; cbn [push_commit_message].
  - eapply holds_weaken with (Q1 := fun _ l => Forall (fun _ => True) l);
      [change (only (fun _ : Event => True) (ai_commit_message E)); only_auto|].
    intros; discriminate.
  - hstep. intros s [= <-] c' t' [= <- <-]. reflexivity.
  - eapply holds_weaken with (Q1 := fun _ l => Forall (fun _ => True) l);
      [change (only (fun _ : Event => True) (ai_commit_message E)); only_auto|].
    intros; discriminate.
Qed.

Lemma push_action_pushed_at_the_end message :
  holds (push_action E folderName message) (pushed_at_the_end message).
Proof.
  unfold push_action. apply holds_try_catch.
  eapply (holds_weaken E _ (pushed_at_the_end message)).
  - do 8 (apply (holds_skip E (fun _ => True));
          [ solve [only_auto]
          | discriminate
          | discriminate
          | intros; now apply pushed_at_the_end_prefix
          | intros ]).
    apply holds_bind. eapply holds_weaken; [apply commit_message_is_literal|].
    intros [s|e|c] l H; cbv beta iota; try discriminate.
    eapply holds_weaken; [apply (commit_and_push_end s message); now apply H|].
    intros; now apply pushed_at_the_end_prefix.
  - intros [[]|e|c] l H; cbv beta iota; try exact H.
    hstep. discriminate.
Qed.

End PushOutcomes.

(** X14. When git status prints nothing but white space, push exits
    with code 0 right after that check: nothing is staged, committed or
    pushed. *)
Theorem no_changes_is_a_successful_no_op
    E folderName message (f : ConfigFs) (x : Ext E) out :
  In (EvExeca git_status (ExecaOk out))
     (trace (snd (push_action E folderName message (start E f x)))) ->
  nonBlank out = false ->
  let run := push_action E folderName message (start E f x) in
  fst run = Exit 0 /\
  (exists before, trace (snd run) = before ++ [EvExeca git_status (ExecaOk out)]) /\
  (forall c r, In (EvExeca c r) (trace (snd run)) ->
               c <> git_add /\ (forall m, c <> git_commit m) /\ (forall b, c <> git_push b)).
Proof.
  intros Hin Hblank run. subst run.
  destruct (push_action_nothing_to_commit E folderName message (start E f x))
    as (l & Hl & Hpost).
  simpl in Hl. rewrite Hl in *. exact (Hpost out Hin Hblank).
Qed.

(** X15. A push that ends normally has, as its last three steps, run
    git commit, git branch --show-current and git push -u origin with
    the branch that query gave (main when it gave nothing), each with
    success; with a literal message the commit carries that message. *)
Theorem completed_push_committed_and_pushed
    E folderName message (f : ConfigFs) (x : Ext E) :
  fst (push_action E folderName message (start E f x)) = Return tt ->
  exists before m out1 out2 out3,
    trace (snd (push_action E folderName message (start E f x))) =
      before ++ [EvExeca (git_commit m) (ExecaOk out1);
                 EvExeca git_branch (ExecaOk out2);
                 EvExeca (git_push (branchOrMain out2)) (ExecaOk out3)] /\
    (forall c t, message = Some (c :: t) -> m = c :: t).
Proof.
  intros Hret.
  destruct (push_action_pushed_at_the_end E folderName message (start E f x))
    as (l & Hl & Hpost).
  simpl in Hl. rewrite Hl. exact (Hpost Hret).
Qed.

(** ** Requests to the provider during push *)

Lemma count_posts_app l1 l2 : count_posts (l1 ++ l2) = (count_posts l1 + count_posts l2)%nat.
Proof. unfold count_posts. now rewrite filter_app, length_app. Qed.

Lemma count_posts_none l : Forall not_a_post l -> count_posts l = 0%nat.
Proof.
  unfold count_posts, not_a_post. induction 1 as [|ev l Hev Hl IH]; [reflexivity|].
  simpl. now rewrite Hev.
Qed.

Lemma config_event_not_a_post ev : config_event ev -> not_a_post ev.
Proof. destruct ev; simpl; try contradiction; reflexivity. Qed.

Lemma count_posts_config l : Forall config_event l -> count_posts l = 0%nat.
Proof.
  intros H. apply count_posts_none.
  eapply Forall_impl; [exact config_event_not_a_post | exact H].
Qed.

Lemma count_posts_zero_no_post l q r : count_posts l = 0%nat -> ~ In (EvPost q r) l.
Proof.
  unfold count_posts. intros H Hin.
  assert (Hf : In (EvPost q r) (filter is_post l)) by (apply filter_In; auto).
  destruct (filter is_post l); [destruct Hf | discriminate H].
Qed.

Lemma empty_diff_not_config : ~ config_event empty_diff.
Proof. exact (fun H => H). Qed.

Lemma last_of_rev {A} (l rest : list A) a :
  rev l = a :: rest -> l = rev rest ++ [a].
Proof.
  intros H. apply (f_equal (@rev A)) in H. now rewrite rev_involutive in H.
Qed.

(** Closes a leaf of the analysis of "Step 5" for [message_step_shape]. *)
Ltac shape_leaf :=
  unfold message_step_shape;
  rewrite ?count_posts_app;
  repeat match goal with
         | H : Forall config_event ?l |- context [count_posts ?l] =>
             rewrite (count_posts_config l H)
         end;
  cbn [count_posts filter is_post List.length Nat.add];
  split;
  [ repeat (apply Forall_app; split); repeat constructor;
    try assumption;
    try (eapply Forall_impl; [exact config_is_message | eassumption]);
    try reflexivity
  | split; [lia|]; split;
    [ intros Hcount; try discriminate Hcount; try lia;
      rewrite ?in_app_iff; cbn [In]; unfold accepted; tauto
    | let Hin := fresh "Hin" in
      intros Hin;
      unfold empty_diff in Hin;
      repeat (apply in_app_or in Hin; destruct Hin as [Hin|Hin]);
      try (match type of Hin with
           | In _ ?l0 =>
               match goal with
               | H : Forall config_event l0 |- _ =>
                   exfalso;
                   exact (not_in_config_events _ _ H empty_diff_not_config Hin)
               end
           end);
      try (cbn [In] in Hin; destruct Hin as [Hin|[]]; try discriminate Hin);
      try contradiction;
      try (split; [reflexivity|]; split; [reflexivity|];
           eexists; apply last_of_rev;
           rewrite ?rev_app_distr; simpl; reflexivity) ] ].

Section MessageShape.

Variable E : Externals.

(** One step, with the provider client taken as a whole. *)
Ltac hstep_client :=
  first
    [ match goal with
      | |- holds (generateCommitMessage _ _ _ _) _ =>
          eapply holds_weaken; [apply generateCommitMessage_posts_once|];
          let o := fresh "o" in
          let l := fresh "l" in
          let q := fresh "q" in
          let r := fresh "r" in
          let Hexit := fresh "Hexit" in
          intros o l ((q & r & ->) & Hexit);
          destruct o as [?|?|?];
          [| |exfalso; eapply Hexit; reflexivity]; cbv beta iota
      end
    | hstep ].

Lemma ai_commit_message_shape : holds (ai_commit_message E) message_step_shape.
Proof.
  unfold ai_commit_message, getAiProvider, getApiKey, getStagedDiff, generate_or_reconfigure,
    confirm.
  do 8 hstep. cbn [app].
  destruct (aiProvider c) as [p|]; [destruct (apiKey c0) as [[|ch k]|]|].
  all: repeat hstep_client.
  all: shape_leaf.
Qed.

End MessageShape.

Section PushRequests.

Variable E : Externals.
Variable folderName : jsstring.

Lemma push_commit_message_shape message :
  holds (push_commit_message E message) message_step_shape.
Proof.
  destruct message as [[|c t]|]; cbn [push_commit_message];
    try apply ai_commit_message_shape.
  hstep. shape_leaf.
Qed.

Lemma at_most_two_posts_prefix {A} (o : Outcome A) l1 l2 :
  Forall not_a_post l1 -> at_most_two_posts o l2 -> at_most_two_posts o (l1 ++ l2).
Proof.
  intros H1 (Hle & Hacc). unfold at_most_two_posts.
  rewrite count_posts_app, (count_posts_none _ H1). cbn [Nat.add].
  split; [assumption|]. intros H. apply in_or_app. right. auto.
Qed.

Lemma at_most_two_posts_quiet {A} (o : Outcome A) l :
  Forall not_a_post l -> at_most_two_posts o l.
Proof.
  intros H. unfold at_most_two_posts. rewrite (count_posts_none _ H).
  split; [lia | discriminate].
Qed.

Lemma commit_push_not_posts message :
  only not_a_post (commit E message ;; push E).
Proof. repeat only_step; event_fits. Qed.

Lemma push_action_at_most_two_posts message :
  holds (push_action E folderName message) at_most_two_posts.
Proof.
  unfold push_action. apply holds_try_catch.
  eapply (holds_weaken E _ at_most_two_posts).
  - do 8 (apply (holds_after_prefix E not_a_post);
          [ solve [repeat only_step; event_fits]
          | intros; now apply at_most_two_posts_quiet
          | intros; now apply at_most_two_posts_prefix
          | intros ]).
    apply holds_bind. eapply holds_weaken; [apply push_commit_message_shape|].
    intros [s|e|c] l (_ & Hle & Hacc & _); cbv beta iota; try (split; assumption).
    eapply holds_weaken; [apply commit_push_not_posts|].
    intros o l2 Hl2. unfold at_most_two_posts.
    rewrite count_posts_app, (count_posts_none _ Hl2), Nat.add_0_r.
    split; [assumption|]. intros H. apply in_or_app. left. auto.
  - intros [[]|e|c] l H; cbv beta iota; try exact H.
    hstep. now rewrite app_nil_r.
Qed.

Lemma before_diff_not_empty_diff l : Forall before_diff l -> ~ In empty_diff l.
Proof.
  intros Hl Hin. destruct (proj1 (Forall_forall _ _) Hl _ Hin) as (H & _). now apply H.
Qed.

Lemma nothing_staged_prefix {A} (o : Outcome A) l1 l2 :
  Forall before_diff l1 -> nothing_staged o l2 -> nothing_staged o (l1 ++ l2).
Proof.
  intros H1 H2 Hin.
  apply in_app_or in Hin. destruct Hin as [Hin|Hin];
    [now destruct (before_diff_not_empty_diff _ H1 Hin)|].
  destruct (H2 Hin) as (Ho & Hpost & Hcommit & before & ->).
  split; [assumption|]. split; [|split].
  - intros q r Hq. apply in_app_or in Hq. destruct Hq as [Hq|Hq].
    + exact (proj1 (Forall_forall _ _) H1 _ Hq).
    + exact (Hpost q r Hq).
  - intros m r Hc. apply in_app_or in Hc. destruct Hc as [Hc|Hc].
    + destruct (proj1 (Forall_forall _ _) H1 _ Hc) as (_ & Hm). now apply (Hm m).
    + exact (Hcommit m r Hc).
  - exists (l1 ++ before). now rewrite app_assoc.
Qed.

Lemma push_action_nothing_staged message :
  holds (push_action E folderName message) nothing_staged.
Proof.
  unfold push_action. apply holds_try_catch.
  eapply (holds_weaken E _ nothing_staged).
  - do 8 (apply (holds_after_prefix E before_diff);
          [ solve [repeat only_step; intros; cbv [before_diff]; try exact I;
                   try (match goal with
                        | H : config_event ?ev |- _ =>
                            destruct ev; cbn [config_event] in H; try contradiction;
                            exact I
                        end);
                   repeat split; intros; intro H; vm_compute in H; discriminate H]
          | intros ? ? Hl Hin; now destruct (before_diff_not_empty_diff _ Hl Hin)
          | intros; now apply nothing_staged_prefix
          | intros ]).
    apply holds_bind. eapply holds_weaken; [apply push_commit_message_shape|].
    intros [s|e|c] l (Hev & _ & _ & Hempty); cbv beta iota.
    + eapply holds_weaken; [apply (commit_push_events E folderName)|].
      intros o l2 Hl2 Hin. exfalso.
      apply in_app_or in Hin. destruct Hin as [Hin|Hin].
      * now destruct (Hempty Hin).
      * destruct (proj1 (Forall_forall _ _) Hl2 _ Hin) as (c & r & Heq & Hc & _).
        injection Heq as <- _. now apply Hc.
    + intros Hin. now destruct (Hempty Hin).
    + intros Hin. destruct (Hempty Hin) as (Ho & Hzero & before & Hb).
      split; [now injection Ho as ->|]. split; [|split].
      * intros q r. now apply count_posts_zero_no_post.
      * intros m r Hc. pose proof (proj1 (Forall_forall _ _) Hev _ Hc) as H.
        simpl in H. vm_compute in H. discriminate H.
      * now exists before.
  - intros [[]|e|c] l H; cbv beta iota; try exact H.
    hstep. intros Hin. rewrite app_nil_r in Hin. now destruct (H Hin).
Qed.

End PushRequests.

(** X16. A run of push sends at most two requests to the provider, and
    a second one only after the user accepted the offer to reconfigure
    that follows the failure of the first. *)
Theorem push_posts_at_most_twice E folderName message (f : ConfigFs) (x : Ext E) :
  let l := trace (snd (push_action E folderName message (start E f x))) in
  (count_posts l <= 2)%nat /\
  (count_posts l = 2%nat -> In accepted l).
Proof.
  intros l.
  destruct (push_action_at_most_two_posts E folderName message (start E f x))
    as (l' & Hl & Hpost).
  simpl in Hl. unfold l. rewrite Hl. exact Hpost.
Qed.

(** X17. When the staged diff turns out to be empty, push exits with
    code 0 right after reading it: no request has been sent to the
    provider and nothing is committed. *)
Theorem empty_staged_diff_is_a_no_op E folderName message (f : ConfigFs) (x : Ext E) :
  In empty_diff (trace (snd (push_action E folderName message (start E f x)))) ->
  let run := push_action E folderName message (start E f x) in
  fst run = Exit 0 /\
  (forall q r, ~ In (EvPost q r) (trace (snd run))) /\
  (forall m r, ~ In (EvExeca (git_commit m) r) (trace (snd run))) /\
  (exists before, trace (snd run) = before ++ [empty_diff]).
Proof.
  intros Hin run. subst run.
  destruct (push_action_nothing_staged E folderName message (start E f x))
    as (l & Hl & Hpost).
  simpl in Hl. rewrite Hl in *. exact (Hpost Hin).
Qed.

(** ** The delete command *)

(** Splits a hypothesis [In ev l], for a list [l] given event by event,
    into the cases that can be. *)
Ltac in_cases H :=
  cbn [app In] in H;
  repeat (destruct H as [H|H]);
  try contradiction;
  try discriminate H;
  try (exfalso;
       let Hc := fresh in
       injection H as Hc; vm_compute in Hc; discriminate Hc).

Ltac not_deleting :=
  let c := fresh "c" in
  let r := fresh "r" in
  let Hc := fresh "Hc" in
  let Hd := fresh "Hd" in
  intros c r Hc Hd; in_cases Hc;
  try (injection Hc as <- _;
       destruct Hd as [Hd|[Hd|(? & Hd)]]; vm_compute in Hd; discriminate Hd).

Ltac delete_case :=
  lazymatch goal with
  | |- forall q, In (EvConfirm q (Answered false)) _ -> _ =>
      let q := fresh "q" in
      let Hin := fresh "Hin" in
      intros q Hin; in_cases Hin; (split; [reflexivity | not_deleting])
  | |- forall n r, In (EvExeca (gh_repo_delete n) r) _ -> _ =>
      let n := fresh "n" in
      let r := fresh "r" in
      let Hin := fresh "Hin" in
      intros n r Hin; in_cases Hin;
      unfold gh_repo_delete, gh in Hin; injection Hin as <- _;
      do 2 eexists; (split; [cbn [app In]; tauto|]); (split; [eassumption | reflexivity])
  | |- forall r, In (EvExeca git_remote_remove r) _ -> _ =>
      let r := fresh "r" in
      let Hin := fresh "Hin" in
      intros r Hin; in_cases Hin; do 2 eexists; cbn [app In]; tauto
  | |- forall u, In _ _ -> _ -> _ =>
      let u := fresh "u" in
      let Hin := fresh "Hin" in
      let Hnone := fresh "Hnone" in
      intros u Hin Hnone; in_cases Hin;
      try (injection Hin as <-; congruence);
      (split; [reflexivity | not_deleting])
  end.

Ltac delete_leaf :=
  unfold delete_shape;
  repeat match goal with
         | |- _ /\ _ => split
         end;
  delete_case.

Section DeleteFlow.

Variable E : Externals.

Ltac hstep_keep :=
  first
    [ match goal with
      | |- holds (match repoMatch ?u with _ => _ end) _ =>
          let H := fresh "Hmatch" in destruct (repoMatch u) eqn:H; cbv beta iota
      | |- holds (select_yes_no _ _) _ =>
          apply holds_select_yes_no; [intros [|] | intros]; cbv beta iota
      | |- holds (ret (remoteListed ?out)) _ =>
          let H := fresh "Hlisted" in
          destruct (remoteListed out) eqn:H; apply holds_ret; cbv beta iota; cbn [negb]
      end
    | hstep ].

Lemma delete_action_shape yes : holds (delete_action E yes) delete_shape.
Proof.
  unfold delete_action, deleteWithRetry, hasRemote.
  repeat (hstep_keep; cbn [negb error_message]).
  all: delete_leaf.
Qed.

End DeleteFlow.

(** X18. When the user answers No to the question of the delete
    command, the command exits with code 0 and has run no gh repo
    delete, no gh auth refresh and no git remote remove.  With --yes the
    command asks no question at all. *)
Theorem declined_delete_changes_nothing E (f : ConfigFs) (x : Ext E) :
  (forall yes q,
     In (EvConfirm q (Answered false)) (trace (snd (delete_action E yes (start E f x)))) ->
     fst (delete_action E yes (start E f x)) = Exit 0 /\
     forall c r, In (EvExeca c r) (trace (snd (delete_action E yes (start E f x)))) ->
                 ~ deletes_something c) /\
  (forall q a, ~ In (EvConfirm q a) (trace (snd (delete_action E true (start E f x))))).
Proof.
  split.
  - intros yes q Hin.
    destruct (delete_action_shape E yes (start E f x)) as (l & Hl & Hshape & _).
    simpl in Hl. rewrite Hl in *. exact (Hshape q Hin).
  - assert (Hno : only not_a_question (delete_action E true)).
    { unfold delete_action. cbn [negb]. repeat only_step; intros; exact I. }
    destruct (Hno (start E f x)) as (l & Hl & Hall).
    simpl in Hl. rewrite Hl. intros q a Hin.
    exact (proj1 (Forall_forall _ _) Hall _ Hin).
Qed.

Lemma declined_delete_changes_nothing_witness :
  fst (delete_action decliningEnv false (start decliningEnv NoFile tt)) = Exit 0.
Proof.
  destruct (declined_delete_changes_nothing decliningEnv NoFile tt) as (Hdecl & _).
  refine (proj1 (Hdecl false (deleteQuestion (lit "user/repo")) _)).
  vm_compute. do 4 right. left. reflexivity.
Defined.

(** X19. Every gh repo delete the delete command runs names the
    repository parsed from the output of git remote get-url origin, and
    git remote remove origin is run only after a gh repo delete that
    succeeded. *)
Theorem delete_targets_the_parsed_remote E yes (f : ConfigFs) (x : Ext E) :
  let l := trace (snd (delete_action E yes (start E f x))) in
  (forall n r, In (EvExeca (gh_repo_delete n) r) l ->
     exists remoteUrl captured,
       In (EvExeca git_remote_get_url (ExecaOk remoteUrl)) l /\
       repoMatch remoteUrl = Some captured /\ n = repoNameOf captured) /\
  (forall r, In (EvExeca git_remote_remove r) l ->
     exists n out, In (EvExeca (gh_repo_delete n) (ExecaOk out)) l).
Proof.
  intros l.
  destruct (delete_action_shape E yes (start E f x)) as (l' & Hl & _ & Hdel & Hrem & _).
  simpl in Hl. unfold l. rewrite Hl. split; assumption.
Qed.

Lemma delete_targets_the_parsed_remote_witness :
  exists out,
    In (EvExeca (gh_repo_delete (lit "user/repo")) (ExecaOk out))
       (trace (snd (delete_action agreeingEnv true (start agreeingEnv NoFile tt)))).
Proof.
  destruct (delete_targets_the_parsed_remote agreeingEnv true NoFile tt) as (_ & Hrem).
  destruct (Hrem (ExecaOk [])) as (n & out & Hin).
  - vm_compute. do 5 right. left. reflexivity.
  - exists []. vm_compute. do 4 right. left. reflexivity.
Defined.

(** X20. When origin is not among the remotes, or when the URL of
    origin is not matched (as is every URL that does not mention
    github.com), the delete command exits with code 1 and has run no gh
    repo delete, no gh auth refresh and no git remote remove. *)
Theorem delete_without_github_remote_fails E yes (f : ConfigFs) (x : Ext E) :
  let run := delete_action E yes (start E f x) in
  (forall out,
     In (EvExeca git_remote (ExecaOk out)) (trace (snd run)) ->
     remoteListed out = false ->
     fst run = Exit 1 /\
     forall c r, In (EvExeca c r) (trace (snd run)) -> ~ deletes_something c) /\
  (forall remoteUrl,
     In (EvExeca git_remote_get_url (ExecaOk remoteUrl)) (trace (snd run)) ->
     repoMatch remoteUrl = None ->
     fst run = Exit 1 /\
     forall c r, In (EvExeca c r) (trace (snd run)) -> ~ deletes_something c) /\
  (forall remoteUrl,
     includes remoteUrl (lit "github.com") = false -> repoMatch remoteUrl = None).
Proof.
  intros run. subst run.
  destruct (delete_action_shape E yes (start E f x))
    as (l & Hl & _ & _ & _ & Hurl & Hremote).
  simpl in Hl. rewrite Hl in *.
  split; [exact Hremote|]. split; [exact Hurl|]. exact repoMatch_needs_host.
Qed.

Lemma delete_without_github_remote_fails_witness :
  fst (delete_action readyEnv true (start readyEnv NoFile tt)) = Exit 1.
Proof.
  destruct (delete_without_github_remote_fails readyEnv true NoFile tt) as (_ & Hurl & Hhost).
  refine (proj1 (Hurl [] _ (Hhost [] eq_refl))).
  vm_compute. do 3 right. left. reflexivity.
Defined.

(** X21. gh repo delete is tried once; it is tried a second time only
    when the first failure mentions delete_repo, and then after gh auth
    refresh has asked for that scope with success.  Any other failure
    of the first attempt, a failure of the refresh and a failure of the
    second attempt are thrown on. *)
Theorem deleteWithRetry_retries_once E repoName (w : World E) :
  exists l,
    trace (snd (deleteWithRetry E repoName w)) = trace w ++ l /\
    ((exists out,
        l = [EvExeca (gh_repo_delete repoName) (ExecaOk out)] /\
        fst (deleteWithRetry E repoName w) = Return tt) \/
     (exists m,
        includes m (lit "delete_repo") = false /\
        l = [EvExeca (gh_repo_delete repoName) (ExecaFail m)] /\
        fst (deleteWithRetry E repoName w) = Throw (Error m)) \/
     (exists m m',
        includes m (lit "delete_repo") = true /\
        l = [EvExeca (gh_repo_delete repoName) (ExecaFail m);
             EvExeca gh_auth_refresh (ExecaFail m')] /\
        fst (deleteWithRetry E repoName w) = Throw (Error m')) \/
     (exists m out r,
        includes m (lit "delete_repo") = true /\
        l = [EvExeca (gh_repo_delete repoName) (ExecaFail m);
             EvExeca gh_auth_refresh (ExecaOk out);
             EvExeca (gh_repo_delete repoName) r] /\
        fst (deleteWithRetry E repoName w)
          = match r with
            | ExecaOk _ => Return tt
            | ExecaFail m2 => Throw (Error m2)
            end)).
Proof.
  revert w. change (holds (deleteWithRetry E repoName)
                      (fun o l =>
                         (exists out,
                            l = [EvExeca (gh_repo_delete repoName) (ExecaOk out)] /\
                            o = Return tt) \/
                         (exists m,
                            includes m (lit "delete_repo") = false /\
                            l = [EvExeca (gh_repo_delete repoName) (ExecaFail m)] /\
                            o = Throw (Error m)) \/
                         (exists m m',
                            includes m (lit "delete_repo") = true /\
                            l = [EvExeca (gh_repo_delete repoName) (ExecaFail m);
                                 EvExeca gh_auth_refresh (ExecaFail m')] /\
                            o = Throw (Error m')) \/
                         (exists m out r,
                            includes m (lit "delete_repo") = true /\
                            l = [EvExeca (gh_repo_delete repoName) (ExecaFail m);
                                 EvExeca gh_auth_refresh (ExecaOk out);
                                 EvExeca (gh_repo_delete repoName) r] /\
                            o = match r with
                                | ExecaOk _ => Return tt
                                | ExecaFail m2 => Throw (Error m2)
                                end))).
  unfold deleteWithRetry. do 3 hstep.
  - hstep. left. now exists out.
  - cbn [error_message]. destruct (includes m (lit "delete_repo")) eqn:Hinc.
    + do 2 hstep.
      * do 2 hstep.
        -- hstep. right; right; right. exists m, out, (ExecaOk out0). auto.
        -- right; right; right. exists m, out, (ExecaFail m0). auto.
      * right; right; left. exists m, m0. auto.
    + hstep. right; left. exists m. auto.
Qed.

(** ** The setup command *)

Section SetupFlow.

Variable E : Externals.

Lemma holds_setApiKey_exact p k Q :
  (forall l,
     l = [EvWriteConfig (mkConfig (Some p) (Some k) (Some true))] \/
     l = [EvMkdir; EvWriteConfig (mkConfig (Some p) (Some k) (Some true))] ->
     Q (Return tt) l) ->
  holds (setApiKey E p k) Q.
Proof.
  intros H w. destruct w as [f t x].
  destruct f as [| |[c|]]; run_config; eexists;
    (split; [rewrite <- ?app_assoc; reflexivity|]);
    apply H; auto.
Qed.

Ltac hstep_setup :=
  first
    [ match goal with
      | |- holds (setApiKey _ _ _) _ =>
          apply holds_setApiKey_exact; intros ? [-> | ->]; cbv beta iota
      end
    | hstep ].

Ltac setup_leaf :=
  unfold setup_shape; split;
  [ intros (? & Hret); try discriminate Hret; eexists; cbn [app In]; tauto
  | let c := fresh "c" in
    let Hin := fresh "Hin" in
    intros c Hin; in_cases Hin; injection Hin as <-;
    (split; [eexists; reflexivity|]);
    (split; [eexists; cbn [app In]; tauto|]);
    (split; [(left; eexists; cbn [app In]; tauto) || (right; eexists; cbn [app In]; tauto)|]);
    do 3 eexists; cbn [app In]; (split; [tauto|]); (split; [tauto|]); reflexivity ].

Lemma setup_action_shape : holds (setup_action E) setup_shape.
Proof.
  unfold setup_action. repeat (hstep_setup; cbn [negb]).
  all: setup_leaf.
Qed.

End SetupFlow.

(** X22. The setup command ends normally exactly when it has saved a
    configuration, and it saves one only after gh --version succeeded
    and the user was logged in (gh auth status or gh auth login
    succeeded); what it saves is the provider selected and the trimmed
    key typed in this run, with setupComplete true. *)
Theorem setup_saves_only_after_its_checks E (f : ConfigFs) (x : Ext E) :
  let run := setup_action E (start E f x) in
  (fst run = Return tt <-> exists c, In (EvWriteConfig c) (trace (snd run))) /\
  (forall c, In (EvWriteConfig c) (trace (snd run)) ->
     (exists out, In (EvExeca gh_version (ExecaOk out)) (trace (snd run))) /\
     ((exists out, In (EvExeca gh_auth_status (ExecaOk out)) (trace (snd run))) \/
      (exists out, In (EvExeca gh_auth_login (ExecaOk out)) (trace (snd run)))) /\
     exists p q raw,
       In (EvSelectProvider (Answered p)) (trace (snd run)) /\
       In (EvPassword q (Answered raw)) (trace (snd run)) /\
       c = mkConfig (Some p) (Some (trim raw)) (Some true)).
Proof.
  intros run. subst run.
  destruct (setup_action_shape E (start E f x)) as (l & Hl & Hsave & Hsaved).
  simpl in Hl. rewrite Hl in *. split.
  - split.
    + intros Hret. apply Hsave. now exists tt.
    + intros (c & Hin). destruct (Hsaved c Hin) as ((a & Ha) & _).
      rewrite Ha. now destruct a.
  - intros c Hin. now destruct (Hsaved c Hin) as (_ & Hv & Ha & Hc).
Qed.

Lemma setup_saves_only_after_its_checks_witness :
  fst (setup_action freshLoginEnv (start freshLoginEnv NoDir tt)) = Return tt.
Proof.
  destruct (setup_saves_only_after_its_checks freshLoginEnv NoDir tt) as (Hiff & _).
  apply Hiff. eexists. vm_compute. do 6 right. left. reflexivity.
Defined.

(** ** The repos command with --delete *)

Section ReposDelete.

Variable E : Externals.

Ltac hstep_repos :=
  first
    [ match goal with
      | |- holds (select_yes_no _ _) _ =>
          apply holds_select_yes_no; [intros [|] | intros]; cbv beta iota
      end
    | hstep ].

Ltac repos_case Hinc :=
  lazymatch goal with
  | |- forall n r, In (EvExeca (gh_repo_delete n) r) _ -> _ =>
      let n := fresh "n" in
      let r := fresh "r" in
      let Hin := fresh "Hin" in
      intros n r Hin; in_cases Hin;
      unfold gh_repo_delete, gh in Hin; injection Hin as <- _;
      first [ left; split; [exact Hinc | reflexivity]
            | right; split; [exact Hinc|]; eexists; split; [cbn [app In]; tauto | reflexivity] ]
  | |- forall r, In (EvExeca gh_api_user_login r) _ -> _ =>
      let r := fresh "r" in
      let Hin := fresh "Hin" in
      intros r Hin; in_cases Hin; exact Hinc
  | |- forall q, In (EvConfirm q (Answered false)) _ -> _ =>
      let q := fresh "q" in
      let Hin := fresh "Hin" in
      intros q Hin; in_cases Hin; (split; [reflexivity | not_deleting])
  end.

Lemma repos_delete_action_shape name :
  holds (repos_delete_action E name) (repos_delete_shape name).
Proof.
  unfold repos_delete_action, deleteWithRetry.
  destruct (includes name (lit "/")) eqn:Hinc; cbn [negb].
  all: repeat (hstep_repos; cbn [negb error_message]).
  all: unfold repos_delete_shape;
       repeat match goal with |- _ /\ _ => split end;
       repos_case Hinc.
Qed.

End ReposDelete.

(** X23. repos --delete with a name that has no slash asks gh api user
    for the login and deletes the trimmed login, a slash and the name; a
    name with a slash is deleted as given and the login is not asked
    for. When the user answers No the command exits with code 0 and gh
    repo delete is not run. *)
Theorem repos_delete_qualifies_bare_names E name (f : ConfigFs) (x : Ext E) :
  name <> [] ->
  let run := repos_delete_action E name (start E f x) in
  (forall n r, In (EvExeca (gh_repo_delete n) r) (trace (snd run)) ->
     (includes name (lit "/") = true /\ n = name) \/
     (includes name (lit "/") = false /\
      exists login,
        In (EvExeca gh_api_user_login (ExecaOk login)) (trace (snd run)) /\
        n = trim login ++ lit "/" ++ name)) /\
  (forall r, In (EvExeca gh_api_user_login r) (trace (snd run)) ->
     includes name (lit "/") = false) /\
  (forall q, In (EvConfirm q (Answered false)) (trace (snd run)) ->
     fst run = Exit 0 /\
     forall c r, In (EvExeca c r) (trace (snd run)) -> ~ deletes_something c).
Proof.
  intros _ run. subst run.
  destruct (repos_delete_action_shape E name (start E f x)) as (l & Hl & Hshape).
  simpl in Hl. rewrite Hl. exact Hshape.
Qed.

Lemma repos_delete_qualifies_bare_names_witness :
  exists login,
    In (EvExeca gh_api_user_login (ExecaOk login))
       (trace (snd (repos_delete_action readyEnv (lit "proj") (start readyEnv configured tt)))) /\
    lit "/proj" = trim login ++ lit "/" ++ lit "proj".
Proof.
  assert (Hname : lit "proj" <> []) by discriminate.
  destruct (repos_delete_qualifies_bare_names readyEnv (lit "proj") configured tt Hname)
    as (Hdel & _).
  destruct (Hdel (lit "/proj") (ExecaOk [])) as [(Hinc & _)|(_ & login & Hin & Heq)].
  - vm_compute. do 4 right. left. reflexivity.
  - vm_compute in Hinc. discriminate Hinc.
  - exists login. split; assumption.
Defined.

(** ** push without the GitHub CLI *)

Section PushWithoutCli.

Variable E : Externals.
Variable folderName : jsstring.

Ltac hstep_cli :=
  first
    [ match goal with
      | |- holds (select_yes_no _ _) _ =>
          apply holds_select_yes_no; [intros [|] | intros]; cbv beta iota
      end
    | hstep ].

Lemma nothing_at_all_nil l : Forall nothing_at_all l -> l = [].
Proof. intros [|ev l' []]. reflexivity. Qed.

Lemma no_version_not_in l r : Forall no_version l -> ~ In (EvExeca gh_version r) l.
Proof.
  intros Hl Hin. now apply (proj1 (Forall_forall _ _) Hl _ Hin).
Qed.

Lemma push_after_cli_no_version message :
  only no_version
       (needsApiReconfigure <- push_check_auth E ;;
        push_check_ai E message needsApiReconfigure ;;
        push_check_repo E ;;
        push_check_remote E folderName ;;
        push_check_changes E ;;
        stageAll E ;;
        commitMessage <- push_commit_message E message ;;
        commit E commitMessage ;;
        push E).
Proof.
  repeat only_step;
    intros; cbv [no_version]; try exact I;
    try (match goal with
         | H : config_event ?ev |- _ =>
             destruct ev; cbn [config_event] in H; try contradiction; try exact I
         end);
    let H := fresh in intro H; vm_compute in H; discriminate H.
Qed.

Lemma push_from_cli_missing message :
  holds (push_check_cli E ;;
         needsApiReconfigure <- push_check_auth E ;;
         push_check_ai E message needsApiReconfigure ;;
         push_check_repo E ;;
         push_check_remote E folderName ;;
         push_check_changes E ;;
         stageAll E ;;
         commitMessage <- push_commit_message E message ;;
         commit E commitMessage ;;
         push E)
        cli_missing.
Proof.
  assert (Hcli : holds (push_check_cli E)
                   (fun o l =>
                      match o with
                      | Return _ => exists out, l = [EvExeca gh_version (ExecaOk out)]
                      | _ => cli_missing o l
                      end)).
  { unfold push_check_cli, isGhInstalled, confirm. do 4 hstep.
    - hstep. cbn [negb]. hstep. cbn [app]. eauto.
    - hstep. cbn [negb].
      repeat (hstep_cli; cbn [negb]).
      all: intros m' _; split;
           [ repeat constructor
           | first [ left; repeat split; cbn [app In]; tauto
                   | right; split; [ first [now left | right; eexists; reflexivity] |];
                     let H := fresh in intro H; in_cases H ] ]. }
  apply holds_bind. eapply holds_weaken; [exact Hcli|].
  intros [[]|e|c] l H; cbv beta iota; try exact H.
  destruct H as (out & ->).
  eapply holds_weaken; [apply push_after_cli_no_version|].
  intros o l Hl m Hin. exfalso. cbn [app] in Hin. destruct Hin as [Hin|Hin].
  - discriminate Hin.
  - now apply (no_version_not_in _ _ Hl) in Hin.
Qed.

Lemma push_action_cli_missing message :
  holds (push_action E folderName message)
        (fun o l =>
           forall m, In (EvExeca gh_version (ExecaFail m)) l ->
             Forall install_event l /\
             ((o = Exit 0 /\ In (EvInstallGhCli None) l /\
               In (EvConfirm installQuestion (Answered true)) l) \/
              (o = Exit 1 /\ ~ In (EvInstallGhCli None) l))).
Proof.
  unfold push_action. apply holds_try_catch.
  eapply (holds_weaken E _ cli_missing).
  - apply (holds_after_prefix E nothing_at_all).
    + unfold push_setup_gate. repeat only_step.
    + intros o l Hl m Hin. apply nothing_at_all_nil in Hl. subst l. destruct Hin.
    + intros o l1 l2 Hl1 H2. apply nothing_at_all_nil in Hl1. now subst l1.
    + intros _. apply push_from_cli_missing.
  - intros [[]|e|c] l H; cbv beta iota.
    + intros m Hin. destruct (H m Hin) as (Hall & [(Ho & _)|([Ho|(e & Ho)] & _)]);
        discriminate Ho.
    + hstep. intros m Hin. rewrite app_nil_r in *.
      destruct (H m Hin) as (Hall & [(Ho & _)|(_ & Hno)]); [discriminate Ho|].
      split; [assumption|]. right. now split.
    + intros m Hin.
      destruct (H m Hin) as (Hall & [(Ho & Hi & Hc)|([Ho|(e & Ho)] & Hno)]).
      * split; [assumption|]. left. now repeat split.
      * split; [assumption|]. right. now split.
      * discriminate Ho.
Qed.

End PushWithoutCli.

(** X24. When gh --version fails, push does nothing but offer to
    install the GitHub CLI: no other command is run and nothing else is
    asked. It exits with code 0 when the user accepted and the
    installation succeeded, and with code 1 otherwise. *)
Theorem push_without_cli_only_offers_install
    E folderName message (f : ConfigFs) (x : Ext E) m :
  In (EvExeca gh_version (ExecaFail m))
     (trace (snd (push_action E folderName message (start E f x)))) ->
  let run := push_action E folderName message (start E f x) in
  Forall install_event (trace (snd run)) /\
  ((fst run = Exit 0 /\ In (EvInstallGhCli None) (trace (snd run)) /\
    In (EvConfirm installQuestion (Answered true)) (trace (snd run))) \/
   (fst run = Exit 1 /\ ~ In (EvInstallGhCli None) (trace (snd run)))).
Proof.
  intros Hin run. subst run.
  destruct (push_action_cli_missing E folderName message (start E f x))
    as (l & Hl & Hpost).
  simpl in Hl. rewrite Hl in *. exact (Hpost m Hin).
Qed.

Lemma push_without_cli_only_offers_install_witness :
  Forall install_event
    (trace (snd (push_action missingCliEnv (lit "proj") None (start missingCliEnv configured tt)))).
Proof.
  refine (proj1 (push_without_cli_only_offers_install
                   missingCliEnv (lit "proj") None configured tt (lit "spawn gh ENOENT") _)).
  vm_compute. left. reflexivity.
Defined.

(** ** Runs of push on concrete environments *)

Lemma no_changes_is_a_successful_no_op_witness :
  fst (push_action cleanTreeEnv (lit "proj") None (start cleanTreeEnv configured tt)) = Exit 0.
Proof.
  refine (proj1 (no_changes_is_a_successful_no_op
                   cleanTreeEnv (lit "proj") None configured tt [] _ _)).
  - vm_compute. do 4 right. left. reflexivity.
  - reflexivity.
Defined.

Lemma completed_push_committed_and_pushed_witness :
  exists before m out1 out2 out3,
    trace (snd (push_action readyEnv (lit "proj") (Some (lit "fix: typo"))
                  (start readyEnv NoDir tt))) =
      before ++ [EvExeca (git_commit m) (ExecaOk out1);
                 EvExeca git_branch (ExecaOk out2);
                 EvExeca (git_push (branchOrMain out2)) (ExecaOk out3)] /\
    (forall c t, Some (lit "fix: typo") = Some (c :: t) -> m = c :: t).
Proof.
  apply (completed_push_committed_and_pushed readyEnv (lit "proj") (Some (lit "fix: typo")) NoDir tt).
  vm_compute. reflexivity.
Defined.

Lemma empty_staged_diff_is_a_no_op_witness :
  fst (push_action emptyDiffEnv (lit "proj") None (start emptyDiffEnv configured tt)) = Exit 0.
Proof.
  refine (proj1 (empty_staged_diff_is_a_no_op emptyDiffEnv (lit "proj") None configured tt _)).
  vm_compute. do 6 right. left. reflexivity.
Defined.
